(** * gen_matrices.py: extraction of the PCA weight matrix, generation of the
    inverse DCT matrix and the raw float32 writer, as a shallow embedding.

    Python values are modelled as follows.
    - [str] is a list of 8-bit characters ([list ascii]): texts whose code
      points are below 256.
    - [float] is an IEEE-754 binary64 value, given by the Standard Library's
      executable specification [spec_float] at precision 53 and maximal
      exponent 1024.  The correctly rounded operations ([*], [/], [-],
      [math.sqrt], comparisons, [int] to [float]) are the ones of [SpecFloat].
    - The operations whose result depends on the C library or on the
      interpreter version ([math.cos], C [pow] behind [**], the summation
      algorithm of [sum]) are fields of a [runtime] record.
    - A raised exception is a value of [exn]; a computation that may raise
      returns a [result].  Functions that touch files or print run in the
      state-and-exception monad [M] over a [world]. *)

From Stdlib Require Import ZArith String Ascii Bool Lia Arith.
From Stdlib Require Import List.
From Stdlib.Strings Require Import Byte.
From Stdlib Require Import Floats.SpecFloat.
Import ListNotations.

(* ================================================================== *)
(** ** Exceptions and the exception monad *)

(** The exceptions the script can raise.  The four [ValueError]s of
    [extract_pca_matrix] are kept apart by the message they carry. *)
Inductive exn : Type :=
| DeclarationNotFound
    (* ValueError("Could not find pca_weight array in C source") *)
| RowCountMismatch (expected got : nat)
    (* ValueError(f"Expected {PCA_SIZE} rows, got {len(rows)}") *)
| ColumnCountMismatch (row expected got : nat)
    (* ValueError(f"Row {i}: expected {DCT_SIZE} values, got {len(values)}") *)
| MalformedNumericLiteral (token : list ascii)
    (* ValueError: could not convert string to float *)
| MathDomainError        (* ValueError: math domain error *)
| EmptySequenceError     (* ValueError: max() arg is an empty sequence *)
| ZeroDivisionError
| OverflowError
| IndexError
| OSError (path : list ascii).

Inductive result (A : Type) : Type :=
| Ok (a : A)
| Raise (e : exn).

Arguments Ok {A} a.
Arguments Raise {A} e.

Definition bind {A B : Type} (c : result A) (k : A -> result B) : result B :=
  match c with
  | Ok a => k a
  | Raise e => Raise e
  end.

Declare Scope py_scope.
Delimit Scope py_scope with py.
Notation "x <- c ;; k" := (bind c (fun x => k))
  (at level 61, c at next level, right associativity) : py_scope.
Notation "' pat <- c ;; k" := (bind c (fun x => match x with pat => k end))
  (at level 61, pat pattern, c at next level, right associativity) : py_scope.
Open Scope py_scope.

(** [[f(x) for x in l]] where [f] may raise: left to right, first exception wins. *)
Fixpoint mapM {A B : Type} (f : A -> result B) (l : list A) : result (list B) :=
  match l with
  | [] => Ok []
  | x :: l' => y <- f x ;; ys <- mapM f l' ;; Ok (y :: ys)
  end.

(** [range(n)]. *)
Definition range (n : nat) : list nat := seq 0 n.

(** [l[i]] for a non-negative index. *)
Definition getitem {A : Type} (l : list A) (i : nat) : result A :=
  match nth_error l i with
  | Some x => Ok x
  | None => Raise IndexError
  end.

(** [l[i] = v] for a non-negative index. *)
Fixpoint setitem {A : Type} (l : list A) (i : nat) (v : A) : result (list A) :=
  match l, i with
  | [], _ => Raise IndexError
  | _ :: l', O => Ok (v :: l')
  | x :: l', S i' => l'' <- setitem l' i' v ;; Ok (x :: l'')
  end.

(* ================================================================== *)
(** ** Python [float]: IEEE-754 binary64 *)

Definition float : Type := spec_float.

Definition prec : Z := 53.
Definition emax : Z := 1024.

Definition fmul : float -> float -> float := SFmul prec emax.
Definition fdiv : float -> float -> float := SFdiv prec emax.
Definition fadd : float -> float -> float := SFadd prec emax.
Definition fsub : float -> float -> float := SFsub prec emax.
Definition fsqrt : float -> float := SFsqrt prec emax.
Definition fabs : float -> float := SFabs.
Definition flt : float -> float -> bool := SFltb.

Definition is_nan (x : float) : bool :=
  match x with S754_nan => true | _ => false end.
Definition is_inf (x : float) : bool :=
  match x with S754_infinity _ => true | _ => false end.
Definition is_zero (x : float) : bool :=
  match x with S754_zero _ => true | _ => false end.
Definition is_finite (x : float) : bool :=
  match x with S754_zero _ | S754_finite _ _ _ => true | _ => false end.

(** The value nearest to the integer [z], ties to even. *)
Definition round_int (z : Z) : float := binary_normalize prec emax z 0 false.

(** The float literals of the script. *)
Definition f0_0 : float := S754_zero false.
Definition f1_0 : float := Eval vm_compute in round_int 1.
Definition f2_0 : float := Eval vm_compute in round_int 2.
Definition f0_5 : float := Eval vm_compute in fdiv f1_0 f2_0.

(** The value nearest to [m * 10^e], ties to even: the value of a decimal
    literal, as the interpreter's correctly rounded conversion gives it. *)
Definition round_decimal (sign : bool) (m : Z) (e : Z) : float :=
  match m with
  | Z0 => S754_zero sign
  | Zneg _ => S754_nan
  | Zpos p =>
      match e with
      | Zneg k => fdiv (S754_finite sign p 0) (S754_finite false (10 ^ k)%positive 0)
      | _ => binary_normalize prec emax (if sign then - (m * 10 ^ e) else m * 10 ^ e) 0 false
      end
  end.

(** [1e-6], the tolerance of the self check. *)
Definition f1em6 : float := Eval vm_compute in round_decimal false 1 (-6).

(** [math.pi]. *)
Definition math_pi : float := S754_finite false 7074237752028440 (-51).

(** Conversion of an [int] operand in mixed arithmetic:
    [OverflowError: int too large to convert to float]. *)
Definition float_of_int (z : Z) : result float :=
  let r := round_int z in
  if is_inf r then Raise OverflowError else Ok r.

(** [x / y] on floats. *)
Definition truediv (x y : float) : result float :=
  if is_zero y then Raise ZeroDivisionError else Ok (fdiv x y).

(** What the script takes from the C library and the interpreter version. *)
Record runtime : Type := {
  libm_cos : float -> float;            (* C cos *)
  libm_pow : float -> float -> float;   (* C pow *)
  builtin_sum : list float -> float     (* sum() over floats, start 0 *)
}.

(** [math.cos(x)] and [math.sqrt(x)]: CPython's wrapper [math_1] around the C
    function raises [ValueError] when the result is a NaN the argument was
    not, or an infinity for a finite argument. *)
Definition math_1 (func : float -> float) (x : float) : result float :=
  let r := func x in
  if is_nan r && negb (is_nan x) then Raise MathDomainError
  else if is_inf r && is_finite x then Raise MathDomainError
  else Ok r.

Definition math_cos (rt : runtime) : float -> result float := math_1 (libm_cos rt).
Definition math_sqrt : float -> result float := math_1 fsqrt.

(** [x ** 2] on a float [x] (CPython's [float_pow] at exponent [2.0]). *)
Definition float_pow2_value (rt : runtime) (x : float) : float :=
  match x with
  | S754_nan => S754_nan
  | S754_infinity _ => S754_infinity false
  | S754_zero _ => S754_zero false
  | S754_finite _ m e =>
      if SFeqb (S754_finite false m e) f1_0 then f1_0
      else libm_pow rt (S754_finite false m e) f2_0
  end.

(** After the call of C [pow], [float_pow] raises [OverflowError] on an
    infinite result and [ValueError] on a domain error, which a C library
    reports together with a NaN result. *)
Definition float_pow2 (rt : runtime) (x : float) : result float :=
  let r := float_pow2_value rt x in
  if is_finite x && is_inf r then Raise OverflowError
  else if is_finite x && is_nan r then Raise MathDomainError
  else Ok r.

(** [max(xs)] over floats: the first maximal item; raises on an empty sequence. *)
Definition py_max (xs : list float) : result float :=
  match xs with
  | [] => Raise EmptySequenceError
  | x :: xs' => Ok (fold_left (fun m y => if flt m y then y else m) xs' x)
  end.

(* ================================================================== *)
(** ** Python [str] *)

Definition str : Type := list ascii.

(** A string literal of this file as a [str]. *)
Definition s_ (s : string) : str := list_ascii_of_string s.

Definition code (c : ascii) : N := N_of_ascii c.

(** [Py_UNICODE_ISSPACE] on code points below 256: what [str.strip()] removes
    and what [\s] matches in a [str] pattern. *)
Definition is_space (c : ascii) : bool :=
  let n := code c in
  ((9 <=? n) && (n <=? 13) || (28 <=? n) && (n <=? 32) || (n =? 133) || (n =? 160))%N.

(** [Py_ISSPACE]: the C-locale white space of ASCII. *)
Definition is_c_space (c : ascii) : bool :=
  let n := code c in ((9 <=? n) && (n <=? 13) || (n =? 32))%N.

Fixpoint lstrip_with (sp : ascii -> bool) (s : str) : str :=
  match s with
  | c :: s' => if sp c then lstrip_with sp s' else s
  | [] => []
  end.

Definition strip_with (sp : ascii -> bool) (s : str) : str :=
  rev (lstrip_with sp (rev (lstrip_with sp s))).

(** [s.strip()]. *)
Definition strip (s : str) : str := strip_with is_space s.

(** [s.split(sep)] for a one-character separator: never an empty list. *)
Fixpoint split (sep : ascii) (s : str) : list str :=
  match s with
  | [] => [[]]
  | c :: s' =>
      if Ascii.eqb c sep then [] :: split sep s'
      else match split sep s' with
           | p :: ps => (c :: p) :: ps
           | [] => [[c]]
           end
  end.

(** Truth value of a [str]: non-empty. *)
Definition truthy (s : str) : bool :=
  match s with [] => false | _ => true end.

Definition clamp_index (len i : Z) : Z :=
  if (i <? 0)%Z then Z.max 0 (i + len) else Z.min i len.

(** [l[lo:hi]], negative bounds counted from the end, as Python slices do. *)
Definition slice {A : Type} (l : list A) (lo hi : Z) : list A :=
  let n := Z.of_nat (length l) in
  let lo' := clamp_index n lo in
  let hi' := clamp_index n hi in
  firstn (Z.to_nat (hi' - lo')) (skipn (Z.to_nat lo') l).

(* ================================================================== *)
(** ** [float(s)] on a [str] *)

Definition is_digit (c : ascii) : bool :=
  let n := code c in ((48 <=? n) && (n <=? 57))%N.

Definition digit_value (c : ascii) : Z := Z.of_N (code c) - 48.

Definition digits_value (ds : list ascii) : Z :=
  fold_left (fun a c => 10 * a + digit_value c)%Z ds 0%Z.

(** [digitpart ::= digit (["_"] digit)*]: the digits read and the rest.  An
    underscore that no digit follows is left unread. *)
Fixpoint digitpart_more (s : str) : list ascii * str :=
  match s with
  | c :: s' =>
      if is_digit c then
        let '(ds, r) := digitpart_more s' in (c :: ds, r)
      else if Ascii.eqb c "_" then
        match s' with
        | d :: s'' =>
            if is_digit d then
              let '(ds, r) := digitpart_more s'' in (d :: ds, r)
            else ([], s)
        | [] => ([], s)
        end
      else ([], s)
  | [] => ([], [])
  end.

Definition digitpart (s : str) : list ascii * str :=
  match s with
  | c :: s' =>
      if is_digit c then
        let '(ds, r) := digitpart_more s' in (c :: ds, r)
      else ([], s)
  | [] => ([], [])
  end.

Definition parse_sign (s : str) : bool * str :=
  match s with
  | c :: s' =>
      if Ascii.eqb c "-" then (true, s')
      else if Ascii.eqb c "+" then (false, s')
      else (false, s)
  | [] => (false, [])
  end.

Definition lower (c : ascii) : ascii :=
  let n := code c in
  if ((65 <=? n) && (n <=? 90))%N then ascii_of_N (n + 32) else c.

Fixpoint str_eqb (a b : str) : bool :=
  match a, b with
  | [], [] => true
  | x :: a', y :: b' => Ascii.eqb x y && str_eqb a' b'
  | _, _ => false
  end.

(** [floatvalue ::= [sign] (floatnumber | "inf" | "infinity" | "nan")], the
    words in any letter case;
    [floatnumber ::= ([digitpart] "." digitpart | digitpart ["."]) [exponent]],
    [exponent ::= ("e" | "E") [sign] digitpart]. *)
Definition parse_float (s : str) : option float :=
  let '(sign, s1) := parse_sign s in
  let word := map lower s1 in
  if str_eqb word (s_ "inf") || str_eqb word (s_ "infinity") then
    Some (S754_infinity sign)
  else if str_eqb word (s_ "nan") then Some S754_nan
  else
    let '(ip, s2) := digitpart s1 in
    let '(fp, s3) :=
      match s2 with
      | c :: s2' => if Ascii.eqb c "." then digitpart s2' else ([], s2)
      | [] => ([], s2)
      end in
    match ip ++ fp with
    | [] => None
    | _ :: _ =>
        let mantissa := digits_value (ip ++ fp) in
        let scale := (- Z.of_nat (length fp))%Z in
        match s3 with
        | [] => Some (round_decimal sign mantissa scale)
        | c :: s4 =>
            if Ascii.eqb c "e" || Ascii.eqb c "E" then
              let '(esign, s5) := parse_sign s4 in
              match digitpart s5 with
              | ((_ :: _) as ep, []) =>
                  let e := digits_value ep in
                  Some (round_decimal sign mantissa
                          ((if esign then (- e) else e) + scale)%Z)
              | _ => None
              end
            else None
        end
    end.

(** [float(s)]: white space is replaced by blanks in a string that is not
    pure ASCII (and any other non-ASCII character by ["?"]), C-locale white
    space is stripped from both ends, and the rest must be a [floatvalue]. *)
Definition is_ascii (c : ascii) : bool := (code c <? 128)%N.

Definition to_ascii_spaces (s : str) : str :=
  if forallb is_ascii s then s
  else map (fun c => if is_ascii c then c
                     else if is_space c then " "%char else "?"%char) s.

Definition py_float (s : str) : result float :=
  match parse_float (strip_with is_c_space (to_ascii_spaces s)) with
  | Some x => Ok x
  | None => Raise (MalformedNumericLiteral s)
  end.

(* ================================================================== *)
(** ** The fragment of [re] the script uses *)

(** A pattern is a sequence of atoms; matching backtracks as [re] does. *)
Inductive atom : Type :=
| Chr (c : ascii)                    (* a literal character *)
| LazyStar (cls : ascii -> bool)     (* [cls*?]: as few as possible *)
| GreedyStar (cls : ascii -> bool)   (* [cls*]: as many as possible *)
| GroupPlus (cls : ascii -> bool).   (* [(cls+)]: a capturing group *)

Definition with_group (g : str) (r : option (list str * str)) : option (list str * str) :=
  match r with
  | Some (gs, rest) => Some (rev g :: gs, rest)
  | None => None
  end.

(** [cls*?] followed by what [k] matches: the shortest run first. *)
Fixpoint lazy_star {R : Type} (cls : ascii -> bool) (k : str -> option R) (s : str) : option R :=
  match k s with
  | Some r => Some r
  | None =>
      match s with
      | c :: s' => if cls c then lazy_star cls k s' else None
      | [] => None
      end
  end.

(** [cls*] followed by what [k] matches: the longest run first. *)
Fixpoint greedy_star {R : Type} (cls : ascii -> bool) (k : str -> option R) (s : str) : option R :=
  match s with
  | c :: s' =>
      if cls c then
        match greedy_star cls k s' with
        | Some r => Some r
        | None => k s
        end
      else k s
  | [] => k s
  end.

(** The rest of [(cls+)] after the characters [acc] (latest first) are in
    the group: the longest run first. *)
Fixpoint group_more (cls : ascii -> bool) (k : str -> option (list str * str))
    (acc : str) (s : str) : option (list str * str) :=
  match s with
  | c :: s' =>
      if cls c then
        match group_more cls k (c :: acc) s' with
        | Some r => Some r
        | None => with_group acc (k s)
        end
      else with_group acc (k s)
  | [] => with_group acc (k s)
  end.

(** Match pattern [p] at the start of [s]: the captured groups and the
    unread rest of [s], for the first way to match that backtracking finds. *)
Fixpoint match_here (p : list atom) (s : str) {struct p} : option (list str * str) :=
  match p with
  | [] => Some ([], s)
  | Chr c :: p' =>
      match s with
      | c' :: s' => if Ascii.eqb c c' then match_here p' s' else None
      | [] => None
      end
  | LazyStar cls :: p' => lazy_star cls (match_here p') s
  | GreedyStar cls :: p' => greedy_star cls (match_here p') s
  | GroupPlus cls :: p' =>
      match s with
      | c :: s' => if cls c then group_more cls (match_here p') [c] s' else None
      | [] => None
      end
  end.

(** [re.search(p, s)]: the leftmost match; [(m.start(), m.end())] counted
    from [pos], the offset of [s] in the whole text. *)
Fixpoint re_search_from (p : list atom) (s : str) (pos : nat) : option (nat * nat) :=
  match match_here p s with
  | Some (_, rest) => Some (pos, pos + (length s - length rest))
  | None =>
      match s with
      | _ :: s' => re_search_from p s' (S pos)
      | [] => None
      end
  end.

Definition re_search (p : list atom) (s : str) : option (nat * nat) :=
  re_search_from p s 0.

(** [re.findall(p, s)] for a pattern with one group: the group of each match,
    left to right without overlap.  After an empty match the scan moves on by
    one character. *)
Fixpoint re_findall_fuel (fuel : nat) (p : list atom) (s : str) : list str :=
  match fuel with
  | O => []
  | S fuel' =>
      match match_here p s with
      | Some (gs, rest) =>
          hd [] gs ::
          (if length rest <? length s then re_findall_fuel fuel' p rest
           else match s with
                | _ :: s' => re_findall_fuel fuel' p s'
                | [] => []
                end)
      | None =>
          match s with
          | _ :: s' => re_findall_fuel fuel' p s'
          | [] => []
          end
      end
  end.

Definition re_findall (p : list atom) (s : str) : list str :=
  re_findall_fuel (S (length s)) p s.

Definition literal (s : string) : list atom := map Chr (s_ s).

Definition not_newline (c : ascii) : bool := negb (Ascii.eqb c "010").
Definition not_close (c : ascii) : bool := negb (Ascii.eqb c "}").

(** [r'pca_weight\[.*?\]\[.*?\]\s*=\s*\{'] *)
Definition decl_pattern : list atom :=
  literal "pca_weight[" ++
  [LazyStar not_newline; Chr "]"; Chr "["; LazyStar not_newline; Chr "]";
   GreedyStar is_space; Chr "="; GreedyStar is_space; Chr "{"].

(** [r'\{([^}]+)\}'] *)
Definition row_pattern : list atom :=
  [Chr "{"; GroupPlus not_close; Chr "}"].

(* ================================================================== *)
(** ** [extract_pca_matrix] *)

Definition matrix : Type := list (list float).

(** A [while] loop: [cond] is the guard, [body] one pass.  [fuel] bounds the
    number of passes; [while_exits] below is the loop's own semantics. *)
Fixpoint while_loop {S : Type} (fuel : nat) (cond : S -> bool) (body : S -> S) (s : S) : S :=
  match fuel with
  | O => s
  | Datatypes.S fuel' => if cond s then while_loop fuel' cond body (body s) else s
  end.

(** [while_exits cond body n s s']: from state [s] the loop makes [n] passes
    and exits in state [s']. *)
Inductive while_exits {S : Type} (cond : S -> bool) (body : S -> S) : nat -> S -> S -> Prop :=
| while_exit : forall s, cond s = false -> while_exits cond body 0 s s
| while_pass : forall n s s', cond s = true -> while_exits cond body n (body s) s' ->
    while_exits cond body (Datatypes.S n) s s'.

(** The guard and the body of the brace scan, on the state [(depth, pos)]:
    [while depth > 0 and pos < len(text)]. *)
Definition scan_cond (text : str) (st : Z * nat) : bool :=
  (0 <? fst st)%Z && (snd st <? length text).

Definition scan_body (text : str) (st : Z * nat) : Z * nat :=
  let '(depth, pos) := st in
  let depth' :=
    match nth_error text pos with
    | Some c =>
        if Ascii.eqb c "{" then (depth + 1)%Z
        else if Ascii.eqb c "}" then (depth - 1)%Z
        else depth
    | None => depth   (* not reached: the guard gives pos < len(text) *)
    end in
  (depth', S pos).

(** The scan from [depth = 1, pos = start]; one pass per character at most. *)
Definition scan_braces (text : str) (start : nat) : Z * nat :=
  while_loop (length text - start) (scan_cond text) (scan_body text) (1%Z, start).

(** [[float(x.strip()) for x in row.split(',') if x.strip()]] *)
Definition parse_row (row : str) : result (list float) :=
  mapM (fun x => py_float (strip x))
       (filter (fun x => truthy (strip x)) (split "," row)).

(** [for i, row in enumerate(rows): ...], from row index [i] with the rows
    appended so far in [acc]. *)
Fixpoint parse_rows (cols : nat) (i : nat) (rows : list str) (acc : matrix) : result matrix :=
  match rows with
  | [] => Ok acc
  | row :: rest =>
      values <- parse_row row ;;
      if negb (length values =? cols) then
        Raise (ColumnCountMismatch i cols (length values))
      else parse_rows cols (S i) rest (acc ++ [values])
  end.

(** The rows the script finds in [text] once the declaration is matched
    ending at [start]: [re.findall(..., text[start:pos-1])]. *)
Definition array_text (text : str) (start : nat) : str :=
  let '(_, pos) := scan_braces text start in
  slice text (Z.of_nat start) (Z.of_nat pos - 1).

(** The body of [extract_pca_matrix] after the file is read; [PCA_SIZE] and
    [DCT_SIZE] are the module constants (47 and 257 in the script). *)
Definition extract_pca_matrix_text (PCA_SIZE DCT_SIZE : nat) (text : str) : result matrix :=
  match re_search decl_pattern text with
  | None => Raise DeclarationNotFound
  | Some (_, start) =>
      let rows := re_findall row_pattern (array_text text start) in
      if negb (length rows =? PCA_SIZE) then
        Raise (RowCountMismatch PCA_SIZE (length rows))
      else parse_rows DCT_SIZE 0 rows []
  end.


(* ================================================================== *)
(** ** Files, standard output and the monad of the script *)

(** A printed line, with the values its f-string formats.  The empty line
    that the banners of [main] start with is not recorded. *)
Inductive output : Type :=
| OutText (s : string)
| OutShape (name : string) (rows cols : nat)     (* "<name>: {rows} x {cols}" *)
| OutSample (label : string) (xs : list float)   (* "  Row 0 <label>: {xs}" *)
| OutVerification (err : float)
    (* "IDCT verification: max reconstruction error = {err:.2e}" *)
| OutWarning
    (* "WARNING: IDCT reconstruction error is large!" *)
| OutSaved (rows cols : nat) (path : str) (bytes : nat).
    (* "Saved {rows}x{cols} matrix to {path} ({rows*cols*4} bytes)" *)

(** What the script sees of its environment and what it leaves behind. *)
Record world : Type := {
  readable : str -> option str;     (* the text [open(path, 'r').read()] gives *)
  writable : str -> bool;           (* whether [open(path, 'wb')] succeeds *)
  files : list (str * list byte);   (* the files written, latest first *)
  stdout : list output              (* the lines printed, oldest first *)
}.

(** State and exceptions: the state reached when an exception is raised is kept. *)
Definition SE (S A : Type) : Type := S -> result A * S.

Definition ret {S A : Type} (a : A) : SE S A := fun s => (Ok a, s).

Definition bindS {S A B : Type} (c : SE S A) (k : A -> SE S B) : SE S B :=
  fun s =>
    match c s with
    | (Ok a, s') => k a s'
    | (Raise e, s') => (Raise e, s')
    end.

Definition lift {S A : Type} (c : result A) : SE S A := fun s => (c, s).

Declare Scope se_scope.
Delimit Scope se_scope with se.
Notation "x <~ c ;; k" := (bindS c (fun x => k))
  (at level 61, c at next level, right associativity) : se_scope.
Notation "c ;;; k" := (bindS c (fun _ => k))
  (at level 61, right associativity) : se_scope.

(** [for x in l: body(x)]. *)
Fixpoint for_each {S A : Type} (l : list A) (body : A -> SE S unit) : SE S unit :=
  match l with
  | [] => ret tt
  | x :: l' => bindS (body x) (fun _ => for_each l' body)
  end.

Definition M (A : Type) : Type := SE world A.

Definition print (o : output) : M unit :=
  fun w => (Ok tt, {| readable := readable w; writable := writable w;
                      files := files w; stdout := stdout w ++ [o] |}).

(** [with open(path, 'r') as f: text = f.read()]. *)
Definition read_text (path : str) : M str :=
  fun w =>
    match readable w path with
    | Some text => (Ok text, w)
    | None => (Raise (OSError path), w)
    end.

(** The content of the file at [path] after the run, if the run wrote it. *)
Fixpoint lookup_file (fs : list (str * list byte)) (path : str) : option (list byte) :=
  match fs with
  | [] => None
  | (p, b) :: fs' => if str_eqb p path then Some b else lookup_file fs' path
  end.

Definition extract_pca_matrix (PCA_SIZE DCT_SIZE : nat) (c_source_path : str) : M matrix :=
  (text <~ read_text c_source_path ;;
   lift (extract_pca_matrix_text PCA_SIZE DCT_SIZE text))%se.

(* ================================================================== *)
(** ** [generate_idct_matrix] *)

(** [math.pi * k * (2*n + 1) / (2*N)] *)
Definition cos_arg (N k n : nat) : result float :=
  fk <- float_of_int (Z.of_nat k) ;;
  f2n1 <- float_of_int (2 * Z.of_nat n + 1) ;;
  f2N <- float_of_int (2 * Z.of_nat N) ;;
  truediv (fmul (fmul math_pi fk) f2n1) f2N.

(** [M[i][j]] *)
Definition getitem2 (m : matrix) (i j : nat) : result float :=
  row <- getitem m i ;; getitem row j.

(** The forward matrix [F], lines 81 to 90. *)
Definition build_F (rt : runtime) (N : nat) (ortho_x ortho_y : float) : result matrix :=
  mapM (fun k =>
    mapM (fun n =>
      a <- cos_arg N k n ;;
      c <- math_cos rt a ;;
      if k =? 0 then Ok (fmul ortho_y c)
      else Ok (fmul (fmul ortho_x ortho_y) c)) (range N)) (range N).

(** [norms_sq], lines 109 to 112. *)
Definition build_norms_sq (rt : runtime) (N : nat) (F : matrix) : result (list float) :=
  mapM (fun k =>
    terms <- mapM (fun n => x <- getitem2 F k n ;; float_pow2 rt x) (range N) ;;
    Ok (builtin_sum rt terms)) (range N).

(** [IDCT], lines 115 to 120. *)
Definition build_IDCT (N : nat) (F : matrix) (norms_sq : list float) : result matrix :=
  mapM (fun n =>
    mapM (fun k =>
      x <- getitem2 F k n ;;
      d <- getitem norms_sq k ;;
      truediv x d) (range N)) (range N).

(** The spot check, lines 124 to 128: the reconstruction error [err]. *)
Definition spot_check (rt : runtime) (N : nat) (F IDCT : matrix) : result float :=
  x_test <- setitem (repeat f0_0 N) 1 f1_0 ;;
  X_test <- mapM (fun k =>
      terms <- mapM (fun n =>
          a <- getitem2 F k n ;; b <- getitem x_test n ;; Ok (fmul a b)) (range N) ;;
      Ok (builtin_sum rt terms)) (range N) ;;
  x_rec <- mapM (fun n =>
      terms <- mapM (fun k =>
          a <- getitem2 IDCT n k ;; b <- getitem X_test k ;; Ok (fmul a b)) (range N) ;;
      Ok (builtin_sum rt terms)) (range N) ;;
  diffs <- mapM (fun n =>
      a <- getitem x_rec n ;; b <- getitem x_test n ;; Ok (fabs (fsub a b))) (range N) ;;
  py_max diffs.

(** [0.5 * math.sqrt(2.0 / (N - 1))] *)
Definition ortho_y_factor (N : nat) : result float :=
  fN1 <- float_of_int (Z.of_nat N - 1) ;;
  q <- truediv f2_0 fN1 ;;
  r <- math_sqrt q ;;
  Ok (fmul f0_5 r).

(** [generate_idct_matrix()], with the module constant [DCT_SIZE] as a parameter. *)
Definition generate_idct_matrix (rt : runtime) (DCT_SIZE : nat) : M matrix :=
  (let N := DCT_SIZE in
   ortho_x <~ lift (math_sqrt f2_0) ;;
   ortho_y <~ lift (ortho_y_factor N) ;;
   F <~ lift (build_F rt N ortho_x ortho_y) ;;
   norms_sq <~ lift (build_norms_sq rt N F) ;;
   IDCT <~ lift (build_IDCT N F norms_sq) ;;
   err <~ lift (spot_check rt N F IDCT) ;;
   print (OutVerification err) ;;;
   (if flt f1em6 err then print OutWarning else ret tt) ;;;
   ret IDCT)%se.

(* ================================================================== *)
(** ** [save_matrix_binary] *)

(** The C cast [(float)x]: the binary32 value nearest to [x], ties to even. *)
Definition to_single (x : float) : spec_float :=
  match x with
  | S754_finite s m e => binary_round 24 128 s m e
  | _ => x
  end.

(** The binary64 value equal to a binary32 value. *)
Definition of_single (y : spec_float) : float :=
  match y with
  | S754_finite s m e => binary_round prec emax s m e
  | _ => y
  end.

(** The 32 bits of a binary32 value: sign, 8 exponent bits, 23 fraction bits. *)
Definition sign_bit (s : bool) : Z := if s then (2 ^ 31)%Z else 0%Z.

Definition single_bits (y : spec_float) : Z :=
  match y with
  | S754_zero s => sign_bit s
  | S754_infinity s => sign_bit s + 255 * 2 ^ 23
  | S754_nan => 255 * 2 ^ 23 + 2 ^ 22
  | S754_finite s m e =>
      if Zpos m <? 2 ^ 23 then sign_bit s + Zpos m
      else sign_bit s + (e + 150) * 2 ^ 23 + (Zpos m - 2 ^ 23)
  end%Z.

Definition bits_single (b : Z) : spec_float :=
  let s := (2 ^ 31 <=? b)%Z in
  let ex := ((b / 2 ^ 23) mod 2 ^ 8)%Z in
  let fr := (b mod 2 ^ 23)%Z in
  if (ex =? 255)%Z then
    if (fr =? 0)%Z then S754_infinity s else S754_nan
  else if (ex =? 0)%Z then
    match fr with
    | Zpos m => S754_finite s m (-149)
    | _ => S754_zero s
    end
  else
    match (fr + 2 ^ 23)%Z with
    | Zpos m => S754_finite s m (ex - 150)%Z
    | _ => S754_nan
    end.

Definition byte_of_Z (z : Z) : byte :=
  match Byte.of_N (Z.to_N (z mod 256)) with
  | Some b => b
  | None => x00
  end.

Definition Z_of_byte (b : byte) : Z := Z.of_N (Byte.to_N b).

(** Four bytes, least significant first. *)
Definition le32 (b : Z) : list byte :=
  [byte_of_Z b; byte_of_Z (b / 2 ^ 8)%Z; byte_of_Z (b / 2 ^ 16)%Z; byte_of_Z (b / 2 ^ 24)%Z].

(** [struct.pack('<f', x)]:
    [OverflowError: float too large to pack with f format] when a finite [x]
    rounds to an infinity. *)
Definition struct_pack_f (x : float) : result (list byte) :=
  let y := to_single x in
  if is_inf y && negb (is_inf x) then Raise OverflowError
  else Ok (le32 (single_bits y)).

(** The write side of an open binary file: the bytes written so far. *)
Definition file_write (b : list byte) : SE (list byte) unit :=
  fun written => (Ok tt, written ++ b).

(** The body of the [with] block of [save_matrix_binary]. *)
Definition write_matrix (m : matrix) (rows cols : nat) : SE (list byte) unit :=
  for_each (range rows) (fun r =>
    for_each (range cols) (fun c =>
      (b <~ lift (x <- getitem2 m r c ;; struct_pack_f x) ;;
       file_write b)%se)).

(** [save_matrix_binary(matrix, path, rows, cols)].  The file holds what was
    written when the block is left, normally or by an exception. *)
Definition save_matrix_binary (m : matrix) (path : str) (rows cols : nat) : M unit :=
  fun w =>
    if writable w path then
      let '(r, written) := write_matrix m rows cols [] in
      let w' := {| readable := readable w; writable := writable w;
                   files := (path, written) :: files w; stdout := stdout w |} in
      match r with
      | Ok _ => print (OutSaved rows cols path (rows * cols * 4)) w'
      | Raise e => (Raise e, w')
      end
    else (Raise (OSError path), w).

(* ================================================================== *)
(** ** [main] *)

Definition default_firmware_path : str :=
  s_ "/data/data/com.termux/files/home/reversing/buddie-src/Firmware-JL701N/cpu/br28/fft_and_pca.c".

Definition assets_dir : str := s_ "/data/data/com.termux/files/home/BeamApp/assets".

Definition ipca_path : str := assets_dir ++ s_ "/ipca_weight.bin".
Definition idct_path : str := assets_dir ++ s_ "/idct_weight.bin".

(** [sys.argv[1] if len(sys.argv) > 1 else "..."] *)
Definition firmware_path (argv : list str) : str :=
  if 1 <? length argv then nth 1 argv [] else default_firmware_path.

(** [main()], for the command line [argv]; [Ok tt] is the normal exit. *)
Definition main (rt : runtime) (PCA_SIZE DCT_SIZE : nat) (argv : list str) : M unit :=
  (print (OutText "=== Extracting PCA weight matrix ===") ;;;
   pca <~ extract_pca_matrix PCA_SIZE DCT_SIZE (firmware_path argv) ;;
   (row0 <~ lift (getitem pca 0) ;;
    print (OutShape "PCA matrix" (length pca) (length row0))) ;;;
   (row0 <~ lift (getitem pca 0) ;;
    print (OutSample "first 5" (slice row0 0 5))) ;;;
   (row0 <~ lift (getitem pca 0) ;;
    print (OutSample "last 5" (slice row0 (-5) (Z.of_nat (length row0))))) ;;;
   print (OutText "=== Generating inverse DCT matrix ===") ;;;
   idct <~ generate_idct_matrix rt DCT_SIZE ;;
   (row0 <~ lift (getitem idct 0) ;;
    print (OutShape "IDCT matrix" (length idct) (length row0))) ;;;
   print (OutText "=== Saving matrices ===") ;;;
   save_matrix_binary pca ipca_path PCA_SIZE DCT_SIZE ;;;
   save_matrix_binary idct idct_path DCT_SIZE DCT_SIZE ;;;
   print (OutText "Done!"))%se.

(* ================================================================== *)
(** ** A runtime to run the model on *)

(** [cos] by its Taylor polynomial of degree 60, for arguments of moderate
    size; [pow] at the one exponent the script uses, as the rounded product;
    [sum] as the left-to-right sum from [0.0]. *)
Fixpoint cos_series (k : nat) (i : Z) (x2 term acc : float) : float :=
  match k with
  | O => acc
  | S k' =>
      let t := fdiv (fmul term x2) (round_int ((2 * i + 1) * (2 * i + 2))) in
      let t := SFopp t in
      cos_series k' (i + 1)%Z x2 t (fadd acc t)
  end.

Definition sample_cos (x : float) : float :=
  match x with
  | S754_nan | S754_infinity _ => S754_nan
  | _ => cos_series 30 0 (fmul x x) f1_0 f1_0
  end.

Definition sample_pow (x y : float) : float :=
  if SFeqb y f2_0 then fmul x x else S754_nan.

Definition sample_sum (xs : list float) : float := fold_left fadd xs f0_0.

Definition sample_runtime : runtime :=
  {| libm_cos := sample_cos; libm_pow := sample_pow; builtin_sum := sample_sum |}.

(** A runtime whose cosine is useless, to exercise the warning of the spot check. *)
Definition coarse_runtime : runtime :=
  {| libm_cos := fun _ => f1_0; libm_pow := sample_pow; builtin_sum := sample_sum |}.

Definition empty_world (input : str -> option str) : world :=
  {| readable := input; writable := fun _ => true; files := []; stdout := [] |}.


(* ================================================================== *)
(** ** Reference definitions for the statements *)

(** [sep.join(parts)]. *)
Fixpoint join (sep : ascii) (parts : list str) : str :=
  match parts with
  | [] => []
  | [p] => p
  | p :: ps => p ++ sep :: join sep ps
  end.

(** No character of [s] is [c]. *)
Definition lacks (c : ascii) (s : str) : bool :=
  forallb (fun x => negb (Ascii.eqb x c)) s.

(** The literal of the specification's scenarios. *)
Definition literal_2x2 : str := s_ "pca_weight[2][2] = {{1.0,2.0},{3.0,4.0}};".

(** A decimal literal: an optional sign, digits with an optional point, an
    optional exponent. *)
Record decimal : Type := {
  d_sign : option bool;                           (* [Some true] is "-" *)
  d_int : list ascii;                             (* the digits before the point *)
  d_frac : option (list ascii);                   (* the point and the digits after it *)
  d_exp : option (bool * option bool * list ascii)  (* capital "E"?, sign, digits *)
}.

Definition render_sign (s : option bool) : str :=
  match s with
  | None => []
  | Some true => ["-"%char]
  | Some false => ["+"%char]
  end.

Definition render_frac (f : option (list ascii)) : str :=
  match f with
  | None => []
  | Some ds => "."%char :: ds
  end.

Definition render_exp (e : option (bool * option bool * list ascii)) : str :=
  match e with
  | None => []
  | Some (capital, s, ds) => (if capital then "E"%char else "e"%char) :: render_sign s ++ ds
  end.

Definition render_decimal (d : decimal) : str :=
  render_sign (d_sign d) ++ d_int d ++ render_frac (d_frac d) ++ render_exp (d_exp d).

Definition frac_digits (d : decimal) : list ascii :=
  match d_frac d with
  | None => []
  | Some ds => ds
  end.

(** Only digits where digits stand, at least one digit in the mantissa and,
    when there is an exponent, at least one in it. *)
Definition well_formed_decimal (d : decimal) : bool :=
  forallb is_digit (d_int d) && forallb is_digit (frac_digits d) &&
  truthy (d_int d ++ frac_digits d) &&
  match d_exp d with
  | None => true
  | Some (_, _, ds) => forallb is_digit ds && truthy ds
  end.

Definition is_minus (s : option bool) : bool :=
  match s with
  | Some true => true
  | _ => false
  end.


(** A text at which a run of digits ends. *)
Definition stops_digits (s : str) : bool :=
  match s with
  | [] => true
  | c :: _ => negb (is_digit c) && negb (Ascii.eqb c "_")
  end.

Arguments is_digit : simpl never.
Arguments is_space : simpl never.
Arguments is_c_space : simpl never.
Arguments is_ascii : simpl never.
Arguments lower : simpl never.


(** The literal [-1.5e-3]. *)
Definition decimal_sample : decimal :=
  {| d_sign := Some true; d_int := s_ "1"; d_frac := Some (s_ "5");
     d_exp := Some (false, Some true, s_ "3") |}.

(** A text whose braces do not close: the depth never comes back to 0, yet
    a group is found and one of its pieces is no number. *)
Definition literal_unbalanced : str := s_ "pca_weight[1][2] = {{1.0, {2.0} }".

(** The exceptions [extract_pca_matrix] raises on a text. *)
Definition extraction_error (e : exn) : bool :=
  match e with
  | DeclarationNotFound | RowCountMismatch _ _ | ColumnCountMismatch _ _ _
  | MalformedNumericLiteral _ => true
  | _ => false
  end.

(** A source text with a well-formed array literal, by its parts. *)
Record source_literal : Type := {
  sl_prefix : str;                    (* the text before the declaration *)
  sl_dim1 : str;                      (* between the first brackets *)
  sl_dim2 : str;                      (* between the second brackets *)
  sl_ws1 : str;                       (* before "=" *)
  sl_ws2 : str;                       (* after "=" *)
  sl_groups : list (str * list str);  (* per brace group: the text before it, its tokens *)
  sl_last : str;                      (* after the last group *)
  sl_suffix : str                     (* after the closing brace *)
}.

Definition render_group (g : str * list str) : str :=
  fst g ++ "{"%char :: join "," (snd g) ++ ["}"%char].

Definition render_body (l : source_literal) : str :=
  concat (map render_group (sl_groups l)) ++ sl_last l.

Definition render_header (l : source_literal) : str :=
  s_ "pca_weight[" ++ sl_dim1 l ++ s_ "][" ++ sl_dim2 l ++ "]"%char ::
  sl_ws1 l ++ "="%char :: sl_ws2 l ++ ["{"%char].

Definition render_literal (l : source_literal) : str :=
  sl_prefix l ++ render_header l ++ render_body l ++ "}"%char :: sl_suffix l.

Fixpoint starts_with (p s : str) : bool :=
  match p, s with
  | [], _ => true
  | x :: p', y :: s' => Ascii.eqb x y && starts_with p' s'
  | _ :: _, [] => false
  end.

Definition is_ok {A : Type} (r : result A) : bool :=
  match r with
  | Ok _ => true
  | Raise _ => false
  end.

(** A numeric token: no comma and no brace in it, and [float] accepts it
    once stripped. *)
Definition numeric_token (t : str) : bool :=
  lacks "," t && lacks "{" t && lacks "}" t && is_ok (py_float (strip t)).

Definition token_value (t : str) : float :=
  match py_float (strip t) with
  | Ok v => v
  | Raise _ => S754_nan
  end.

(** A group of [cols] numeric tokens, after a text without braces. *)
Definition good_group (cols : nat) (g : str * list str) : bool :=
  lacks "{" (fst g) && lacks "}" (fst g) &&
  (length (snd g) =? cols) && forallb numeric_token (snd g).

(** The literal is well formed for [cols] columns: the declaration is the
    first occurrence of ["pca_weight["]; the dimensions hold no ["]"] and no
    newline; only white space surrounds ["="]; every group has [cols]
    numeric tokens, and no brace stands between the groups. *)
Definition well_formed_literal (cols : nat) (l : source_literal) : bool :=
  forallb (fun i => negb (starts_with (s_ "pca_weight[") (skipn i (render_literal l))))
          (range (length (sl_prefix l))) &&
  forallb (fun c => not_newline c && negb (Ascii.eqb c "]")) (sl_dim1 l) &&
  forallb (fun c => not_newline c && negb (Ascii.eqb c "]")) (sl_dim2 l) &&
  forallb is_space (sl_ws1 l) && forallb is_space (sl_ws2 l) &&
  forallb (good_group cols) (sl_groups l) &&
  lacks "{" (sl_last l) && lacks "}" (sl_last l) && (1 <=? cols).

(** The matrix the literal denotes: the values of its tokens, in text order. *)
Definition literal_matrix (l : source_literal) : matrix :=
  map (fun g => map token_value (snd g)) (sl_groups l).

Definition f3_0 : float := Eval vm_compute in round_int 3.
Definition f4_0 : float := Eval vm_compute in round_int 4.

(** The literal of the scenario, by its parts. *)
Definition source_2x2 : source_literal :=
  {| sl_prefix := []; sl_dim1 := s_ "2"; sl_dim2 := s_ "2";
     sl_ws1 := s_ " "; sl_ws2 := s_ " ";
     sl_groups := [([], [s_ "1.0"; s_ "2.0"]); (s_ ",", [s_ "3.0"; s_ "4.0"])];
     sl_last := []; sl_suffix := s_ ";" |}.

(** The text [s] is empty or starts outside the class [cls]. *)
Definition head_outside (cls : ascii -> bool) (s : str) : Prop :=
  match s with
  | [] => True
  | c :: _ => cls c = false
  end.

(** The change of depth over a piece of text, and whether the depth is
    positive before each of its characters. *)
Definition depth_step (d : Z) (c : ascii) : Z :=
  if Ascii.eqb c "{" then (d + 1)%Z
  else if Ascii.eqb c "}" then (d - 1)%Z
  else d.

Definition depth_after (d : Z) (seg : str) : Z := fold_left depth_step seg d.

Fixpoint stays_open (d : Z) (seg : str) : bool :=
  match seg with
  | [] => true
  | c :: seg' => (0 <? d)%Z && stays_open (depth_step d c) seg'
  end.

(** *** The inverse basis as the specification defines it

    The scale constants, the forward basis [F], the squared norm of each of
    its rows and the matrix [G], written with the operations of Python's
    [float] and of the runtime. *)

Definition spec_ortho_x : float := fsqrt f2_0.

Definition spec_ortho_y (N : nat) : float :=
  fmul f0_5 (fsqrt (fdiv f2_0 (round_int (Z.of_nat N - 1)))).

(** [pi * k * (2n + 1) / (2N)] *)
Definition spec_angle (N k n : nat) : float :=
  fdiv (fmul (fmul math_pi (round_int (Z.of_nat k))) (round_int (2 * Z.of_nat n + 1)))
       (round_int (2 * Z.of_nat N)).

Definition spec_F (rt : runtime) (N k n : nat) : float :=
  if k =? 0 then fmul (spec_ortho_y N) (libm_cos rt (spec_angle N k n))
  else fmul (fmul spec_ortho_x (spec_ortho_y N)) (libm_cos rt (spec_angle N k n)).

(** [norm(k)]: the sum over [n] of [F[k][n]] squared. *)
Definition spec_norm (rt : runtime) (N k : nat) : float :=
  builtin_sum rt (map (fun n => float_pow2_value rt (spec_F rt N k n)) (range N)).

Definition spec_G (rt : runtime) (N n k : nat) : float :=
  fdiv (spec_F rt N k n) (spec_norm rt N k).

Definition spec_F_matrix (rt : runtime) (N : nat) : matrix :=
  map (fun k => map (fun n => spec_F rt N k n) (range N)) (range N).

Definition spec_G_matrix (rt : runtime) (N : nat) : matrix :=
  map (fun n => map (fun k => spec_G rt N n k) (range N)) (range N).

(** The formulas are defined on the runtime: every cosine and every square
    is a finite number and no row norm is zero. *)
Definition runtime_defined (rt : runtime) (N : nat) : bool :=
  forallb (fun k =>
    forallb (fun n =>
      is_finite (libm_cos rt (spec_angle N k n)) &&
      is_finite (float_pow2_value rt (spec_F rt N k n))) (range N) &&
    negb (is_zero (spec_norm rt N k))) (range N).

(** The sizes for which the arithmetic on [N] itself is checked below. *)
Definition max_size : nat := 1024.

(** The spot check of the verifier: the unit vector of coordinate 1, its
    transform by [F], the reconstruction by [G], and the largest error. *)
Definition spec_x_test (n : nat) : float := if n =? 1 then f1_0 else f0_0.

Definition spec_X_test (rt : runtime) (N k : nat) : float :=
  builtin_sum rt (map (fun n => fmul (spec_F rt N k n) (spec_x_test n)) (range N)).

Definition spec_x_rec (rt : runtime) (N n : nat) : float :=
  builtin_sum rt (map (fun k => fmul (spec_G rt N n k) (spec_X_test rt N k)) (range N)).

Definition max_float (xs : list float) : float :=
  match xs with
  | [] => f0_0
  | x :: xs' => fold_left (fun m y => if flt m y then y else m) xs' x
  end.

Definition spot_error (rt : runtime) (N : nat) : float :=
  max_float (map (fun n => fabs (fsub (spec_x_rec rt N n) (spec_x_test n))) (range N)).

(** The lines [generate_idct_matrix] prints. *)
Definition verifier_output (rt : runtime) (N : nat) : list output :=
  OutVerification (spot_error rt N) ::
  (if flt f1em6 (spot_error rt N) then [OutWarning] else []).

Definition add_output (w : world) (out : list output) : world :=
  {| readable := readable w; writable := writable w;
     files := files w; stdout := stdout w ++ out |}.

(** *** The binary format as the specification states it *)

(** The four bytes written for a value. *)
Definition single_bytes (x : float) : list byte := le32 (single_bits (to_single x)).

(** [struct.pack('<f', x)] does not overflow. *)
Definition packable (x : float) : bool :=
  negb (is_inf (to_single x) && negb (is_inf x)).

(** Row-major: all the columns of row 0, then row 1, and so on. *)
Definition matrix_bytes (m : matrix) : list byte := flat_map single_bytes (concat m).

Definition has_shape (m : matrix) (rows cols : nat) : bool :=
  (length m =? rows) && forallb (fun row => length row =? cols) m.

(** A value is representable in single precision when it is the binary64
    image of a binary32 value. *)
Definition single_representable (x : float) : Prop :=
  exists y, valid_binary 24 128 y = true /\ x = of_single y.

(** Reading the file back: little-endian words, each a binary32 value,
    grouped into [rows] rows of [cols] values. *)
Definition le32_value (b0 b1 b2 b3 : byte) : Z :=
  (Z_of_byte b0 + 2 ^ 8 * Z_of_byte b1 + 2 ^ 16 * Z_of_byte b2 + 2 ^ 24 * Z_of_byte b3)%Z.

Fixpoint unpack_floats (bs : list byte) : list float :=
  match bs with
  | b0 :: b1 :: b2 :: b3 :: rest =>
      of_single (bits_single (le32_value b0 b1 b2 b3)) :: unpack_floats rest
  | _ => []
  end.

Fixpoint rows_of (rows cols : nat) (xs : list float) : matrix :=
  match rows with
  | O => []
  | S r => firstn cols xs :: rows_of r cols (skipn cols xs)
  end.

Definition decode_matrix (rows cols : nat) (bs : list byte) : matrix :=
  rows_of rows cols (unpack_floats bs).

(** [1e39], beyond the range of single precision. *)
Definition f1e39 : float := Eval vm_compute in round_decimal false 1 39.

Definition blank_world : world :=
  {| readable := fun _ => None; writable := fun _ => true; files := []; stdout := [] |}.

(** The lines of a complete run, in order. *)
Definition run_output (rt : runtime) (R N : nat) (pca : matrix) : list output :=
  [OutText "=== Extracting PCA weight matrix ===";
   OutShape "PCA matrix" (length pca) (length (nth 0 pca []));
   OutSample "first 5" (slice (nth 0 pca []) 0 5);
   OutSample "last 5" (slice (nth 0 pca []) (-5) (Z.of_nat (length (nth 0 pca []))));
   OutText "=== Generating inverse DCT matrix ==="] ++
  verifier_output rt N ++
  [OutShape "IDCT matrix" N N;
   OutText "=== Saving matrices ===";
   OutSaved R N ipca_path (R * N * 4);
   OutSaved N N idct_path (N * N * 4);
   OutText "Done!"].

(** A world with one source file, the literal of the scenario, and a
    command line that names it. *)
Definition sample_world : world :=
  {| readable := fun p => if str_eqb p (s_ "in.c") then Some literal_2x2 else None;
     writable := fun _ => true; files := []; stdout := [] |}.

Definition sample_argv : list str := [s_ "gen_matrices.py"; s_ "in.c"].

(** *** The cells of the writer *)

(** The index pairs in the order the two loops of [save_matrix_binary] visit
    them. *)
Definition cells (rows cols : nat) : list (nat * nat) :=
  flat_map (fun r => map (fun c => (r, c)) (range cols)) (range rows).

(** What the loop body computes at a cell: [struct.pack('<f', matrix[r][c])]. *)
Definition pack_cell (m : matrix) (rc : nat * nat) : result (list byte) :=
  x <- getitem2 m (fst rc) (snd rc) ;; struct_pack_f x.

(** The top left block of [rows] rows and [cols] columns. *)
Definition block (m : matrix) (rows cols : nat) : matrix :=
  map (firstn cols) (firstn rows m).

(** *** The lines of a run before the files are written *)

(** The lines [main] prints up to the call of the generator. *)
Definition extraction_output (pca : matrix) : list output :=
  [OutText "=== Extracting PCA weight matrix ===";
   OutShape "PCA matrix" (length pca) (length (nth 0 pca []));
   OutSample "first 5" (slice (nth 0 pca []) 0 5);
   OutSample "last 5" (slice (nth 0 pca []) (-5) (Z.of_nat (length (nth 0 pca []))));
   OutText "=== Generating inverse DCT matrix ==="].

(** The two calls of the writer and the last line. *)
Definition save_both (R N : nat) (pca idct : matrix) : M unit :=
  (save_matrix_binary pca ipca_path R N ;;;
   save_matrix_binary idct idct_path N N ;;;
   print (OutText "Done!"))%se.

(** [p in s]: the text [p] occurs somewhere in [s]. *)
Fixpoint occurs (p s : str) : bool :=
  starts_with p s ||
  match s with
  | [] => false
  | _ :: s' => occurs p s'
  end.

(** The suffixes of a floating constant in C. *)
Definition c_float_suffix (c : ascii) : bool :=
  Ascii.eqb c "f" || Ascii.eqb c "F" || Ascii.eqb c "l" || Ascii.eqb c "L".

(** *** Sample inputs *)

(** Two rows of one value, and a declaration with an empty initializer. *)
Definition literal_2x1 : str := s_ "pca_weight[2][1] = {{1.0},{3.0}};".
Definition literal_no_rows : str := s_ "pca_weight[0][2] = {};".

(** A world in which every source path holds [text] and the paths that can
    be opened for writing are those [can_write] accepts. *)
Definition world_with (text : str) (can_write : str -> bool) : world :=
  {| readable := fun _ => Some text; writable := can_write; files := []; stdout := [] |}.

(** [word.lower() == target]. *)
Definition is_word (target : string) (word : str) : bool :=
  str_eqb (map lower word) (s_ target).

(** No white space of either kind and no character beyond ASCII. *)
Definition plain (c : ascii) : bool :=
  negb (is_space c) && negb (is_c_space c) && is_ascii c.

(* ================================================================== *)
(** * Properties *)

(** ** The exception monad and list comprehensions *)

Lemma mapM_Forall2 {A B : Type} (f : A -> result B) (l : list A) (ys : list B) :
  mapM f l = Ok ys <-> Forall2 (fun x y => f x = Ok y) l ys.
Proof.
  revert ys; induction l as [|x l IH]; intros ys; simpl.
  - split; intros H.
    + injection H as <-. constructor.
    + inversion H. reflexivity.
  - split; intros H.
    + destruct (f x) as [y|e] eqn:Hx; simpl in H; [|discriminate].
      destruct (mapM f l) as [ys'|e] eqn:Hl; simpl in H; [|discriminate].
      injection H as <-. constructor; [assumption|]. apply IH. reflexivity.
    + inversion H as [|x' y l' ys' Hx Hl]; subst.
      rewrite Hx. simpl. apply IH in Hl. rewrite Hl. reflexivity.
Qed.

Lemma mapM_ok {A B : Type} (f : A -> result B) (g : A -> B) (l : list A) :
  (forall x, In x l -> f x = Ok (g x)) -> mapM f l = Ok (map g l).
Proof.
  induction l as [|x l IH]; intros H; simpl; [reflexivity|].
  rewrite (H x (or_introl eq_refl)). simpl.
  rewrite IH by (intros y Hy; apply H; right; exact Hy). reflexivity.
Qed.

Lemma mapM_length {A B : Type} (f : A -> result B) (l : list A) (ys : list B) :
  mapM f l = Ok ys -> length ys = length l.
Proof.
  intros H. apply mapM_Forall2 in H. symmetry. eapply Forall2_length; eassumption.
Qed.

(** A comprehension fails exactly when some item fails; the exception is the
    one of the first item that fails. *)
Lemma mapM_raise {A B : Type} (f : A -> result B) (l : list A) (e : exn) :
  mapM f l = Raise e <->
  exists l1 x l2, l = l1 ++ x :: l2 /\ f x = Raise e /\
                  forall y, In y l1 -> exists v, f y = Ok v.
Proof.
  induction l as [|x l IH]; simpl.
  - split; [discriminate|]. intros (l1 & y & l2 & H & _). destruct l1; discriminate.
  - split.
    + destruct (f x) as [v|e'] eqn:Hx; simpl.
      * destruct (mapM f l) as [vs|e'] eqn:Hl; simpl; [discriminate|].
        intros H; injection H as ->.
        destruct (proj1 IH eq_refl) as (l1 & y & l2 & -> & Hy & Hl1).
        exists (x :: l1), y, l2. repeat split; [assumption|].
        intros z [<-|Hz]; [eauto|auto].
      * intros H; injection H as ->. exists [], x, l. repeat split; [assumption|].
        intros y [].
    + intros (l1 & y & l2 & H & Hy & Hl1). destruct l1 as [|z l1]; simpl in H.
      * injection H as -> ->. rewrite Hy. reflexivity.
      * injection H as -> ->.
        destruct (Hl1 z (or_introl eq_refl)) as [v ->]. simpl.
        assert (Hr : mapM f (l1 ++ y :: l2) = Raise e).
        { apply IH. exists l1, y, l2. repeat split; [assumption|].
          intros t Ht. apply Hl1. right. exact Ht. }
        rewrite Hr. reflexivity.
Qed.

Lemma Forall2_In_left {A B : Type} (R : A -> B -> Prop) (l : list A) (ys : list B) (x : A) :
  Forall2 R l ys -> In x l -> exists y, In y ys /\ R x y.
Proof.
  induction 1 as [|a b l ys Hab _ IH]; intros Hin; [contradiction|].
  destruct Hin as [<-|Hin].
  - exists b. split; [left; reflexivity|assumption].
  - destruct (IH Hin) as (y & Hy & Hr). exists y. split; [right; assumption|assumption].
Qed.

Lemma getitem_map_range {A : Type} (g : nat -> A) (n i : nat) :
  i < n -> getitem (map g (range n)) i = Ok (g i).
Proof.
  intros H. unfold getitem, range.
  rewrite nth_error_map, nth_error_seq.
  destruct (Nat.ltb_spec i n); [reflexivity|lia].
Qed.

Lemma in_range (n i : nat) : In i (range n) <-> i < n.
Proof. unfold range. rewrite in_seq. lia. Qed.

(* ================================================================== *)
(** ** The row loop of [extract_pca_matrix] *)

Lemma split_lacks (sep : ascii) (p : str) :
  lacks sep p = true -> split sep p = [p].
Proof.
  induction p as [|c p IH]; simpl; [reflexivity|].
  intros H. apply andb_true_iff in H as [Hc Hp].
  apply negb_true_iff in Hc. rewrite Hc, (IH Hp). reflexivity.
Qed.

Lemma split_app_sep (sep : ascii) (p s : str) :
  lacks sep p = true -> split sep (p ++ sep :: s) = p :: split sep s.
Proof.
  induction p as [|c p IH]; simpl; intros H.
  - rewrite Ascii.eqb_refl. reflexivity.
  - apply andb_true_iff in H as [Hc Hp].
    apply negb_true_iff in Hc. rewrite Hc, (IH Hp). reflexivity.
Qed.

Lemma split_join (sep : ascii) (ps : list str) :
  ps <> [] -> Forall (fun p => lacks sep p = true) ps ->
  split sep (join sep ps) = ps.
Proof.
  induction ps as [|p ps IH]; intros Hne H; [congruence|].
  inversion H as [|? ? Hp Hps]; subst.
  destruct ps as [|q ps].
  - simpl. apply split_lacks; assumption.
  - change (join sep (p :: q :: ps)) with (p ++ sep :: join sep (q :: ps)).
    rewrite split_app_sep by assumption.
    rewrite IH by (congruence || assumption). reflexivity.
Qed.

Lemma parse_rows_prefix (C : nat) (pre : list str) :
  forall (ms : matrix) (i : nat) (rest : list str) (acc : matrix),
    Forall2 (fun r vs => parse_row r = Ok vs /\ length vs = C) pre ms ->
    parse_rows C i (pre ++ rest) acc = parse_rows C (i + length pre) rest (acc ++ ms).
Proof.
  induction pre as [|r pre IH]; intros ms i rest acc H; inversion H; subst; simpl.
  - rewrite Nat.add_0_r, app_nil_r. reflexivity.
  - match goal with Hx : _ /\ _ |- _ => destruct Hx as [Hr Hl] end.
    rewrite Hr. simpl. rewrite Hl, Nat.eqb_refl. simpl.
    erewrite IH by eassumption.
    rewrite <- app_assoc. simpl. f_equal. lia.
Qed.

Lemma parse_rows_ok (C : nat) (rows : list str) (ms : matrix) :
  Forall2 (fun r vs => parse_row r = Ok vs /\ length vs = C) rows ms ->
  parse_rows C 0 rows [] = Ok ms.
Proof.
  intros H. rewrite <- (app_nil_r rows).
  erewrite parse_rows_prefix by eassumption. reflexivity.
Qed.


Lemma py_float_raise (s : str) (e : exn) :
  py_float s = Raise e -> e = MalformedNumericLiteral s.
Proof.
  unfold py_float. destruct (parse_float _); [discriminate|]. congruence.
Qed.







(* ================================================================== *)
(** ** [float] accepts decimal literals *)

Lemma digit_char (c : ascii) :
  is_digit c = true ->
  is_space c = false /\ is_c_space c = false /\ is_ascii c = true /\
  lower c = c /\ Ascii.eqb c "_" = false /\ Ascii.eqb c "." = false /\
  Ascii.eqb c "-" = false /\ Ascii.eqb c "+" = false /\
  Ascii.eqb c "i" = false /\ Ascii.eqb c "n" = false.
Proof.
  destruct c as [[] [] [] [] [] [] [] []]; vm_compute; intros H;
    try discriminate H; repeat split.
Qed.

Lemma lstrip_with_head (sp : ascii -> bool) (c : ascii) (s : str) :
  sp c = false -> lstrip_with sp (c :: s) = c :: s.
Proof. intros H. simpl. rewrite H. reflexivity. Qed.

Lemma strip_with_id (sp : ascii -> bool) (s : str) :
  forallb (fun c => negb (sp c)) s = true -> strip_with sp s = s.
Proof.
  intros H. unfold strip_with.
  assert (Hl : forall t, forallb (fun c => negb (sp c)) t = true -> lstrip_with sp t = t).
  { intros [|c t] Ht; [reflexivity|]. simpl in Ht.
    apply andb_true_iff in Ht as [Hc _]. apply negb_true_iff in Hc.
    apply lstrip_with_head. exact Hc. }
  rewrite (Hl s H). rewrite Hl.
  - apply rev_involutive.
  - rewrite forallb_forall in *. intros c Hc. apply H. apply in_rev. exact Hc.
Qed.

Lemma digitpart_more_app (ds rest : str) :
  forallb is_digit ds = true -> stops_digits rest = true ->
  digitpart_more (ds ++ rest) = (ds, rest).
Proof.
  intros Hd Hr. induction ds as [|c ds IH]; simpl.
  - destruct rest as [|c r]; [reflexivity|]. simpl in Hr |- *.
    apply andb_true_iff in Hr as [H1 H2].
    apply negb_true_iff in H1, H2. rewrite H1, H2. reflexivity.
  - simpl in Hd. apply andb_true_iff in Hd as [Hc Hd].
    rewrite Hc, (IH Hd). reflexivity.
Qed.

Lemma digitpart_app (ds rest : str) :
  forallb is_digit ds = true -> stops_digits rest = true ->
  digitpart (ds ++ rest) = (ds, rest).
Proof.
  intros Hd Hr. destruct ds as [|c ds]; simpl.
  - destruct rest as [|c r]; [reflexivity|]. simpl in Hr |- *.
    apply andb_true_iff in Hr as [H1 _]. apply negb_true_iff in H1.
    rewrite H1. reflexivity.
  - simpl in Hd. apply andb_true_iff in Hd as [Hc Hd].
    rewrite Hc, (digitpart_more_app _ _ Hd Hr). reflexivity.
Qed.

Lemma parse_sign_render (s : option bool) (rest : str) :
  match rest with
  | [] => True
  | c :: _ => Ascii.eqb c "-" = false /\ Ascii.eqb c "+" = false
  end ->
  parse_sign (render_sign s ++ rest) = (is_minus s, rest).
Proof.
  intros H. destruct s as [[]|]; [reflexivity|reflexivity|].
  destruct rest as [|c r]; [reflexivity|]. simpl.
  destruct H as [-> ->]. reflexivity.
Qed.


Lemma not_a_word (c : ascii) (r : str) :
  is_digit c = true \/ c = "."%char ->
  str_eqb (map lower (c :: r)) (s_ "inf") = false /\
  str_eqb (map lower (c :: r)) (s_ "infinity") = false /\
  str_eqb (map lower (c :: r)) (s_ "nan") = false /\
  Ascii.eqb c "-" = false /\ Ascii.eqb c "+" = false.
Proof.
  intros [H| ->].
  - destruct (digit_char c H) as (_ & _ & _ & Hl & _ & _ & Hm & Hp & Hi & Hn).
    simpl. rewrite Hl, Hi, Hn, Hm, Hp. repeat split.
  - repeat split.
Qed.


Lemma render_decimal_plain (d : decimal) :
  well_formed_decimal d = true ->
  forallb (fun c => negb (is_space c) && negb (is_c_space c) && is_ascii c)
          (render_decimal d) = true.
Proof.
  destruct d as [sg ip fr ex].
  unfold well_formed_decimal, render_decimal, frac_digits. simpl.
  intros H. apply andb_true_iff in H as [H Hex]. apply andb_true_iff in H as [H _].
  apply andb_true_iff in H as [Hip Hfr].
  assert (Hd : forall ds, forallb is_digit ds = true ->
               forallb (fun c => negb (is_space c) && negb (is_c_space c) && is_ascii c) ds = true).
  { intros ds Hds. rewrite forallb_forall in *. intros c Hc.
    destruct (digit_char c (Hds c Hc)) as (-> & -> & -> & _). reflexivity. }
  assert (Hs : forall s, forallb (fun c => negb (is_space c) && negb (is_c_space c) && is_ascii c)
                     (render_sign s) = true) by (intros [[]|]; reflexivity).
  rewrite !forallb_app, Hs, (Hd ip Hip). simpl.
  apply andb_true_iff. split.
  - destruct fr as [f|]; [|reflexivity]. simpl. rewrite (Hd f Hfr). reflexivity.
  - destruct ex as [[[cap es] eds]|]; [|reflexivity]. simpl.
    apply andb_true_iff in Hex as [He _].
    rewrite forallb_app, Hs, (Hd eds He). destruct cap; reflexivity.
Qed.

Lemma forallb_weaken {A : Type} (p q : A -> bool) (l : list A) :
  (forall x, p x = true -> q x = true) -> forallb p l = true -> forallb q l = true.
Proof.
  intros H Hp. rewrite forallb_forall in *. intros x Hx. apply H, Hp, Hx.
Qed.


(* ================================================================== *)
(** ** Exceptions of the extraction end the run *)





(* ================================================================== *)
(** ** The brace scan *)

Lemma while_loop_exits {S : Type} (cond : S -> bool) (body : S -> S) (n : nat) (s s' : S) :
  while_exits cond body n s s' ->
  forall fuel, n <= fuel -> while_loop fuel cond body s = s'.
Proof.
  induction 1 as [s Hc|n s s' Hc _ IH]; intros fuel Hf.
  - destruct fuel; simpl; [reflexivity|]. rewrite Hc. reflexivity.
  - destruct fuel as [|fuel]; [lia|]. simpl. rewrite Hc. apply IH. lia.
Qed.

Lemma while_exits_guard {S : Type} (cond : S -> bool) (body : S -> S) (n : nat) (s s' : S) :
  while_exits cond body n s s' -> cond s' = false.
Proof. induction 1; assumption. Qed.

Lemma scan_body_pos (text : str) (st : Z * nat) :
  snd (scan_body text st) = S (snd st).
Proof. destruct st as [d p]. reflexivity. Qed.

Lemma scan_exits (text : str) (k : nat) :
  forall st, length text - snd st <= k ->
    exists n st', n <= length text - snd st /\
      while_exits (scan_cond text) (scan_body text) n st st' /\
      snd st <= snd st' /\ (snd st <= length text -> snd st' <= length text).
Proof.
  induction k as [|k IH]; intros st Hk.
  - exists 0, st. repeat split; try lia. constructor.
    unfold scan_cond. destruct (Nat.ltb_spec (snd st) (length text)); [lia|].
    apply andb_false_r.
  - destruct (scan_cond text st) eqn:Hc.
    + pose proof Hc as Hc'. unfold scan_cond in Hc'.
      apply andb_true_iff in Hc' as [_ Hp]. apply Nat.ltb_lt in Hp.
      destruct (IH (scan_body text st)) as (n & st' & Hn & Hw & Hle & Hlen).
      { rewrite scan_body_pos. lia. }
      rewrite scan_body_pos in *.
      exists (S n), st'. repeat split; try lia. constructor; assumption.
    + exists 0, st. repeat split; try lia. constructor. exact Hc.
Qed.

Lemma re_search_from_end (p : list atom) (s : str) :
  forall pos a b, re_search_from p s pos = Some (a, b) -> b <= pos + length s.
Proof.
  induction s as [|c s IH]; intros pos a b H; cbn [re_search_from] in H.
  - destruct (match_here p []) as [[gs rest]|]; [|discriminate].
    injection H as <- <-. lia.
  - destruct (match_here p (c :: s)) as [[gs rest]|].
    + injection H as <- <-. destruct (length rest); simpl; lia.
    + apply IH in H. simpl. lia.
Qed.

Lemma parse_rows_raises (C : nat) (rows : list str) :
  forall i acc e, parse_rows C i rows acc = Raise e ->
    (exists j n, e = ColumnCountMismatch j C n) \/
    (exists tok, e = MalformedNumericLiteral tok).
Proof.
  induction rows as [|row rows IH]; intros i acc e; simpl; [discriminate|].
  destruct (parse_row row) as [vs|e'] eqn:Hr; simpl.
  - destruct (length vs =? C); simpl.
    + apply IH.
    + intros H; injection H as <-. left. eauto.
  - intros H; injection H as <-.
    unfold parse_row in Hr. apply mapM_raise in Hr as (_ & x & _ & _ & Hx & _).
    apply py_float_raise in Hx. subst. right. eauto.
Qed.

Lemma parse_rows_errors (C : nat) (rows : list str) :
  forall i acc e, parse_rows C i rows acc = Raise e -> extraction_error e = true.
Proof.
  intros i acc e H.
  destruct (parse_rows_raises C rows i acc e H) as [(j & n & ->)|(tok & ->)]; reflexivity.
Qed.

Lemma extraction_errors (R C : nat) (text : str) (e : exn) :
  extract_pca_matrix_text R C text = Raise e -> extraction_error e = true.
Proof.
  unfold extract_pca_matrix_text.
  destruct (re_search decl_pattern text) as [[s start]|].
  - destruct (length _ =? R); simpl.
    + apply parse_rows_errors.
    + intros H; injection H as <-. reflexivity.
  - intros H; injection H as <-. reflexivity.
Qed.

(** C10, with the errors that can follow.  The brace scan ends after at
    most one pass per character left in the text; every pass moves [pos] one character on, and
    the scan stops with [depth <= 0] or with [pos] at the end of the text.
    When the depth is still positive at the end (unbalanced braces), the
    body is [text[start : len(text) - 1]]; the scan itself raises nothing,
    and whatever the extraction raises afterwards is a row count, a column
    count or a malformed literal error. *)
Theorem brace_scan_terminates (R C : nat) (text : str) (s start : nat) :
  re_search decl_pattern text = Some (s, start) ->
  let final := scan_braces text start in
  (exists n, n <= length text - start /\
     while_exits (scan_cond text) (scan_body text) n (1%Z, start) final) /\
  (forall st, snd (scan_body text st) = S (snd st)) /\
  ((fst final <= 0)%Z \/ snd final = length text) /\
  ((0 < fst final)%Z ->
     array_text text start = slice text (Z.of_nat start) (Z.of_nat (length text) - 1)) /\
  (forall e, extract_pca_matrix_text R C text = Raise e ->
     e = RowCountMismatch R (length (re_findall row_pattern (array_text text start))) \/
     (exists i n, e = ColumnCountMismatch i C n) \/
     (exists tok, e = MalformedNumericLiteral tok)).
Proof.
  intros Hs final.
  assert (Hstart : start <= length text).
  { apply re_search_from_end in Hs. simpl in Hs. exact Hs. }
  destruct (scan_exits text (length text - start) (1%Z, start) (Nat.le_refl _))
    as (n & st' & Hn & Hw & Hle & Hlen). simpl in Hn, Hle, Hlen.
  assert (Hfinal : final = st').
  { unfold final, scan_braces. apply (while_loop_exits _ _ _ _ _ Hw). exact Hn. }
  pose proof (while_exits_guard _ _ _ _ _ Hw) as Hg. rewrite <- Hfinal in *.
  assert (Hstop : (fst final <= 0)%Z \/ snd final = length text).
  { unfold scan_cond in Hg. apply andb_false_iff in Hg as [Hg|Hg].
    - left. apply Z.ltb_ge in Hg. exact Hg.
    - right. apply Nat.ltb_ge in Hg. specialize (Hlen Hstart). lia. }
  repeat split.
  - exists n. split; assumption.
  - apply scan_body_pos.
  - exact Hstop.
  - intros Hd. unfold array_text. fold final.
    destruct final as [d pos]. simpl in *.
    destruct Hstop as [Hz|Hp]; [lia|]. rewrite Hp. reflexivity.
  - intros e He. unfold extract_pca_matrix_text in He. rewrite Hs in He.
    destruct (length _ =? R) eqn:Hl; simpl in He.
    + right. eapply parse_rows_raises. exact He.
    + injection He as <-. left. reflexivity.
Qed.

Lemma brace_scan_terminates_witness :
  (exists n, n <= length literal_unbalanced - 20 /\
     while_exits (scan_cond literal_unbalanced) (scan_body literal_unbalanced) n
       (1%Z, 20) (scan_braces literal_unbalanced 20)) /\
  array_text literal_unbalanced 20 = s_ "{1.0, {2.0} ".
Proof.
  assert (H : re_search decl_pattern literal_unbalanced = Some (0, 20))
    by (vm_compute; reflexivity).
  pose proof (brace_scan_terminates 1 2 literal_unbalanced 0 20 H) as T.
  cbv zeta in T. destruct T as (T1 & _ & _ & T4 & _).
  split; [exact T1|].
  rewrite T4; [vm_compute; reflexivity|vm_compute; reflexivity].
Defined.

(** After unbalanced braces the failure need not be a shape mismatch (C10):
    on this text the depth is still 1 when the scan reaches the end, one
    group is found as expected, and the error is the malformed literal error
    of [float]. *)
Lemma unbalanced_braces_malformed_literal :
  fst (scan_braces literal_unbalanced 20) = 1%Z /\
  re_findall row_pattern (array_text literal_unbalanced 20) = [s_ "1.0, {2.0"] /\
  extract_pca_matrix_text 1 2 literal_unbalanced
  = Raise (MalformedNumericLiteral (s_ "{2.0")).
Proof. repeat split; vm_compute; reflexivity. Qed.

(* ================================================================== *)
(** ** Matching the two patterns *)

Lemma match_literal (lit : str) (p : list atom) (s : str) :
  match_here (map Chr lit ++ p) (lit ++ s) = match_here p s.
Proof.
  induction lit as [|c lit IH]; simpl; [reflexivity|].
  rewrite Ascii.eqb_refl. exact IH.
Qed.

Lemma match_literal_fail (lit : str) (p : list atom) (s : str) :
  starts_with lit s = false -> match_here (map Chr lit ++ p) s = None.
Proof.
  revert s. induction lit as [|c lit IH]; intros s; simpl; [discriminate|].
  destruct s as [|c' s]; [reflexivity|].
  destruct (Ascii.eqb c c'); simpl; [apply IH|reflexivity].
Qed.

Lemma lazy_star_here {R : Type} (cls : ascii -> bool) (k : str -> option R) (s : str) (r : R) :
  k s = Some r -> lazy_star cls k s = Some r.
Proof. intros H. destruct s; simpl; rewrite H; reflexivity. Qed.

Lemma lazy_star_skip {R : Type} (cls : ascii -> bool) (k : str -> option R) (d s : str) :
  forallb cls d = true ->
  (forall c t, In c d -> k (c :: t) = None) ->
  lazy_star cls k (d ++ s) = lazy_star cls k s.
Proof.
  induction d as [|c d IH]; intros Hc Hk; [reflexivity|].
  simpl in Hc. apply andb_true_iff in Hc as [Hc Hd].
  simpl. rewrite (Hk c (d ++ s) (or_introl eq_refl)), Hc.
  apply IH; [exact Hd|]. intros c' t Hin. apply Hk. right. exact Hin.
Qed.

Lemma greedy_star_all {R : Type} (cls : ascii -> bool) (k : str -> option R) (ws s : str) (r : R) :
  forallb cls ws = true -> head_outside cls s -> k s = Some r ->
  greedy_star cls k (ws ++ s) = Some r.
Proof.
  intros Hw Hs Hk. induction ws as [|c ws IH]; simpl.
  - destruct s as [|c t]; simpl; [exact Hk|]. simpl in Hs. rewrite Hs. exact Hk.
  - simpl in Hw. apply andb_true_iff in Hw as [Hc Hw].
    rewrite Hc, (IH Hw). reflexivity.
Qed.

Lemma group_more_all (cls : ascii -> bool) (k : str -> option (list str * str))
    (g s : str) (gs : list str) (rest : str) :
  forallb cls g = true -> head_outside cls s -> k s = Some (gs, rest) ->
  forall acc, group_more cls k acc (g ++ s) = Some ((rev acc ++ g) :: gs, rest).
Proof.
  intros Hg Hs Hk. induction g as [|c g IH]; intros acc; simpl.
  - rewrite app_nil_r.
    destruct s as [|c t]; simpl; [rewrite Hk; reflexivity|].
    simpl in Hs. rewrite Hs, Hk. reflexivity.
  - simpl in Hg. apply andb_true_iff in Hg as [Hc Hg].
    rewrite Hc, (IH Hg). simpl. rewrite <- app_assoc. reflexivity.
Qed.

Lemma match_row_group (g rest : str) :
  g <> [] -> lacks "}" g = true ->
  match_here row_pattern ("{"%char :: g ++ "}"%char :: rest) = Some ([g], rest).
Proof.
  intros Hne Hg. destruct g as [|c g]; [congruence|].
  unfold lacks in Hg. simpl in Hg. apply andb_true_iff in Hg as [Hc Hg].
  unfold row_pattern. cbn [match_here app]. rewrite Ascii.eqb_refl.
  unfold not_close at 1. rewrite Hc.
  rewrite (group_more_all not_close _ g ("}"%char :: rest) [] rest Hg);
    [reflexivity|reflexivity|reflexivity].
Qed.

Lemma match_row_other (c : ascii) (s : str) :
  Ascii.eqb c "{" = false -> match_here row_pattern (c :: s) = None.
Proof.
  intros H. unfold row_pattern. cbn [match_here].
  rewrite Ascii.eqb_sym, H. reflexivity.
Qed.

Lemma findall_skip (sep : str) :
  lacks "{" sep = true ->
  forall fuel s,
    re_findall_fuel (length sep + fuel) row_pattern (sep ++ s)
    = re_findall_fuel fuel row_pattern s.
Proof.
  intros H. induction sep as [|c sep IH]; intros fuel s; [reflexivity|].
  unfold lacks in H. simpl in H. apply andb_true_iff in H as [Hc H].
  apply negb_true_iff in Hc.
  cbn [length Nat.add app re_findall_fuel].
  rewrite (match_row_other c (sep ++ s) Hc). apply IH. exact H.
Qed.

Lemma findall_nil (fuel : nat) : re_findall_fuel fuel row_pattern [] = [].
Proof. destruct fuel; reflexivity. Qed.

Lemma findall_group (g rest : str) (fuel : nat) :
  g <> [] -> lacks "}" g = true ->
  re_findall_fuel (S fuel) row_pattern ("{"%char :: g ++ "}"%char :: rest)
  = g :: re_findall_fuel fuel row_pattern rest.
Proof.
  intros Hne Hg. cbn [re_findall_fuel]. rewrite (match_row_group g rest Hne Hg).
  cbn [hd]. replace (length rest <? length ("{"%char :: g ++ "}"%char :: rest)) with true.
  - reflexivity.
  - symmetry. apply Nat.ltb_lt. simpl. rewrite length_app. simpl. lia.
Qed.

Lemma lacks_app (c : ascii) (a b : str) :
  lacks c (a ++ b) = lacks c a && lacks c b.
Proof. apply forallb_app. Qed.

Lemma lacks_join (c sep : ascii) (ps : list str) :
  Ascii.eqb sep c = false -> forallb (lacks c) ps = true -> lacks c (join sep ps) = true.
Proof.
  intros Hs. induction ps as [|p ps IH]; intros H; [reflexivity|].
  simpl in H. apply andb_true_iff in H as [Hp Hps].
  destruct ps as [|q ps]; [exact Hp|].
  change (join sep (p :: q :: ps)) with (p ++ sep :: join sep (q :: ps)).
  rewrite lacks_app, Hp. unfold lacks at 1. cbn [forallb]. fold (lacks c (join sep (q :: ps))).
  rewrite Hs, (IH Hps). reflexivity.
Qed.

Lemma match_here_lazy (cls : ascii -> bool) (p : list atom) (s : str) :
  match_here (LazyStar cls :: p) s = lazy_star cls (match_here p) s.
Proof. reflexivity. Qed.

Lemma match_here_greedy (cls : ascii -> bool) (p : list atom) (s : str) :
  match_here (GreedyStar cls :: p) s = greedy_star cls (match_here p) s.
Proof. reflexivity. Qed.

Lemma match_here_chr (c : ascii) (p : list atom) (s : str) :
  match_here (Chr c :: p) (c :: s) = match_here p s.
Proof. simpl. rewrite Ascii.eqb_refl. reflexivity. Qed.

Lemma match_here_chr_other (c c' : ascii) (p : list atom) (s : str) :
  Ascii.eqb c' c = false -> match_here (Chr c :: p) (c' :: s) = None.
Proof. intros H. simpl. rewrite Ascii.eqb_sym, H. reflexivity. Qed.

(** The declaration pattern on a header. *)
Lemma match_header (d1 d2 ws1 ws2 rest : str) :
  forallb (fun c => not_newline c && negb (Ascii.eqb c "]")) d1 = true ->
  forallb (fun c => not_newline c && negb (Ascii.eqb c "]")) d2 = true ->
  forallb is_space ws1 = true -> forallb is_space ws2 = true ->
  match_here decl_pattern
    (s_ "pca_weight[" ++ d1 ++ s_ "][" ++ d2 ++ "]"%char :: ws1 ++ "="%char :: ws2 ++
     "{"%char :: rest)
  = Some ([], rest).
Proof.
  intros H1 H2 H3 H4.
  assert (Hdim : forall d, forallb (fun c => not_newline c && negb (Ascii.eqb c "]")) d = true ->
            forallb not_newline d = true /\
            forall (p : list atom) c t, In c d -> match_here (Chr "]" :: p) (c :: t) = None).
  { intros d Hd. rewrite forallb_forall in Hd. split.
    - apply forallb_forall. intros c Hc. specialize (Hd c Hc).
      apply andb_true_iff in Hd as [Hd _]. exact Hd.
    - intros p c t Hc. specialize (Hd c Hc). apply andb_true_iff in Hd as [_ Hd].
      apply negb_true_iff in Hd. apply match_here_chr_other. exact Hd. }
  destruct (Hdim d1 H1) as [N1 K1]. destruct (Hdim d2 H2) as [N2 K2].
  unfold decl_pattern, literal. rewrite match_literal.
  rewrite match_here_lazy, (lazy_star_skip not_newline _ d1 _ N1 (K1 _)).
  apply lazy_star_here. change (s_ "][") with ["]"%char; "["%char]. cbn [app].
  rewrite !match_here_chr.
  rewrite match_here_lazy, (lazy_star_skip not_newline _ d2 _ N2 (K2 _)).
  apply lazy_star_here. rewrite match_here_chr, match_here_greedy.
  apply greedy_star_all; [exact H3|reflexivity|].
  rewrite match_here_chr, match_here_greedy.
  apply greedy_star_all; [exact H4|reflexivity|].
  rewrite match_here_chr. reflexivity.
Qed.

Lemma re_search_from_skip (p : list atom) (n : nat) :
  forall (s : str) (pos : nat),
    n <= length s ->
    (forall i, i < n -> match_here p (skipn i s) = None) ->
    re_search_from p s pos = re_search_from p (skipn n s) (pos + n).
Proof.
  induction n as [|n IH]; intros s pos Hn Hf.
  - simpl. rewrite Nat.add_0_r. reflexivity.
  - destruct s as [|c s]; [simpl in Hn; lia|].
    cbn [re_search_from]. pose proof (Hf 0 ltac:(lia)) as H0. simpl in H0. rewrite H0.
    rewrite (IH s (S pos)).
    + simpl. f_equal. lia.
    + simpl in Hn. lia.
    + intros i Hi. apply (Hf (S i)). lia.
Qed.

Lemma re_search_found (p : list atom) (s rest : str) (gs : list str) (pos : nat) :
  match_here p s = Some (gs, rest) ->
  re_search_from p s pos = Some (pos, pos + (length s - length rest)).
Proof. intros H. destruct s; cbn [re_search_from]; rewrite H; reflexivity. Qed.

(* ================================================================== *)
(** ** Scanning a text with balanced braces *)

Lemma depth_after_app (d : Z) (a b : str) :
  depth_after d (a ++ b) = depth_after (depth_after d a) b.
Proof. apply fold_left_app. Qed.

Lemma stays_open_app (a b : str) :
  forall d, stays_open d (a ++ b) = stays_open d a && stays_open (depth_after d a) b.
Proof.
  induction a as [|c a IH]; intros d; [reflexivity|].
  simpl. rewrite IH, andb_assoc. reflexivity.
Qed.

Lemma depth_plain (seg : str) (d : Z) :
  lacks "{" seg = true -> lacks "}" seg = true ->
  depth_after d seg = d /\ ((0 < d)%Z -> stays_open d seg = true).
Proof.
  revert d. induction seg as [|c seg IH]; intros d Ho Hc; [split; reflexivity|].
  unfold lacks in Ho, Hc. simpl in Ho, Hc.
  apply andb_true_iff in Ho as [Ho1 Ho]. apply andb_true_iff in Hc as [Hc1 Hc].
  apply negb_true_iff in Ho1, Hc1.
  assert (Hs : depth_step d c = d) by (unfold depth_step; rewrite Ho1, Hc1; reflexivity).
  unfold depth_after. simpl. rewrite Hs. destruct (IH d Ho Hc) as [Hd Hp].
  split; [exact Hd|]. intros Hpos. rewrite (Hp Hpos).
  apply Z.ltb_lt in Hpos. rewrite Hpos. reflexivity.
Qed.

Lemma scan_passes (text : str) (seg : str) :
  forall (pre post : str) (d : Z) (n : nat) (final : Z * nat),
    text = pre ++ seg ++ post ->
    stays_open d seg = true ->
    while_exits (scan_cond text) (scan_body text) n
      (depth_after d seg, length pre + length seg) final ->
    while_exits (scan_cond text) (scan_body text) (length seg + n) (d, length pre) final.
Proof.
  induction seg as [|c seg IH]; intros pre post d n final Ht Hs Hw.
  - simpl in *. rewrite Nat.add_0_r in Hw. exact Hw.
  - simpl in Hs. apply andb_true_iff in Hs as [Hd Hs].
    assert (Hnth : nth_error text (length pre) = Some c).
    { rewrite Ht, nth_error_app2 by lia. rewrite Nat.sub_diag. reflexivity. }
    assert (Hbody : scan_body text (d, length pre) = (depth_step d c, S (length pre))).
    { unfold scan_body, depth_step. rewrite Hnth. reflexivity. }
    simpl. apply while_pass.
    + unfold scan_cond. simpl. rewrite Hd. apply Nat.ltb_lt.
      rewrite Ht, !length_app. simpl. lia.
    + rewrite Hbody.
      replace (S (length pre)) with (length (pre ++ [c])) by (rewrite length_app; simpl; lia).
      apply (IH (pre ++ [c]) post).
      * rewrite Ht, <- app_assoc. reflexivity.
      * exact Hs.
      * rewrite length_app. simpl.
        replace (length pre + 1 + length seg) with (length pre + S (length seg)) by lia.
        exact Hw.
Qed.

Lemma slice_middle {A : Type} (pre mid post : list A) :
  slice (pre ++ mid ++ post) (Z.of_nat (length pre))
        (Z.of_nat (length pre + length mid + 1) - 1) = mid.
Proof.
  unfold slice, clamp_index. rewrite !length_app.
  destruct (Z.ltb_spec (Z.of_nat (length pre)) 0); [lia|].
  destruct (Z.ltb_spec (Z.of_nat (length pre + length mid + 1) - 1) 0); [lia|].
  rewrite Z.min_l by lia. rewrite Z.min_l by lia.
  rewrite Nat2Z.id.
  replace (Z.to_nat (Z.of_nat (length pre + length mid + 1) - 1 - Z.of_nat (length pre)))
    with (length mid) by lia.
  rewrite skipn_app, skipn_all, Nat.sub_diag. simpl.
  rewrite firstn_app, firstn_all, Nat.sub_diag. simpl. apply app_nil_r.
Qed.

(* ================================================================== *)
(** ** A well-formed literal *)

Lemma numeric_token_truthy (t : str) :
  numeric_token t = true -> truthy (strip t) = true /\ t <> [].
Proof.
  unfold numeric_token. intros H. apply andb_true_iff in H as [_ H].
  split.
  - destruct (strip t) eqn:E; [|reflexivity]. discriminate H.
  - intros ->. discriminate H.
Qed.

Lemma good_group_row (cols : nat) (g : str * list str) :
  1 <= cols -> good_group cols g = true ->
  lacks "{" (fst g) = true /\ lacks "}" (fst g) = true /\
  join "," (snd g) <> [] /\
  lacks "{" (join "," (snd g)) = true /\ lacks "}" (join "," (snd g)) = true /\
  parse_row (join "," (snd g)) = Ok (map token_value (snd g)) /\
  length (map token_value (snd g)) = cols.
Proof.
  intros Hc H. unfold good_group in H.
  apply andb_true_iff in H as [H Hn]. apply andb_true_iff in H as [H Hl].
  apply andb_true_iff in H as [Ho Hcl]. apply Nat.eqb_eq in Hl.
  destruct g as [sep toks]. simpl in *.
  assert (Hparts : forallb (lacks ",") toks = true /\ forallb (lacks "{") toks = true /\
                   forallb (lacks "}") toks = true).
  { rewrite !forallb_forall. rewrite forallb_forall in Hn.
    repeat split; intros t Ht; specialize (Hn t Ht); unfold numeric_token in Hn;
      apply andb_true_iff in Hn as [Hn _]; apply andb_true_iff in Hn as [Hn H3];
      apply andb_true_iff in Hn as [H1 H2]; assumption. }
  destruct Hparts as (P1 & P2 & P3).
  repeat split; try assumption.
  - destruct toks as [|t toks]; [simpl in Hl; lia|].
    simpl in Hn. apply andb_true_iff in Hn as [Ht _].
    destruct (numeric_token_truthy t Ht) as [_ Hne].
    destruct toks; simpl; [exact Hne|]. destruct t; [congruence|discriminate].
  - apply lacks_join; [reflexivity|exact P2].
  - apply lacks_join; [reflexivity|exact P3].
  - unfold parse_row. rewrite split_join.
    + assert (Hf : filter (fun x => truthy (strip x)) toks = toks).
      { clear - Hn. induction toks as [|t toks IH]; [reflexivity|].
        simpl in Hn. apply andb_true_iff in Hn as [Ht Hn]. simpl.
        destruct (numeric_token_truthy t Ht) as [-> _]. rewrite (IH Hn). reflexivity. }
      rewrite Hf. apply mapM_ok. intros t Ht.
      rewrite forallb_forall in Hn. specialize (Hn t Ht). unfold numeric_token in Hn.
      apply andb_true_iff in Hn as [_ Hn]. unfold token_value.
      destruct (py_float (strip t)); [reflexivity|discriminate].
    + destruct toks; [simpl in Hl; lia|discriminate].
    + apply Forall_forall. intros t Ht. rewrite forallb_forall in P1. apply P1, Ht.
  - rewrite length_map. exact Hl.
Qed.

Lemma render_group_depth (cols : nat) (g : str * list str) :
  1 <= cols -> good_group cols g = true ->
  depth_after 1 (render_group g) = 1%Z /\ stays_open 1 (render_group g) = true.
Proof.
  intros Hc H. destruct (good_group_row cols g Hc H) as (S1 & S2 & _ & R1 & R2 & _).
  unfold render_group.
  destruct (depth_plain (fst g) 1 S1 S2) as [D1 O1].
  destruct (depth_plain (join "," (snd g)) 2 R1 R2) as [D2 O2].
  split.
  - rewrite depth_after_app, D1.
    change ("{"%char :: join "," (snd g) ++ ["}"%char])
      with (["{"%char] ++ join "," (snd g) ++ ["}"%char]).
    rewrite !depth_after_app. change (depth_after 1 ["{"%char]) with 2%Z. rewrite D2. reflexivity.
  - rewrite stays_open_app, D1, (O1 ltac:(lia)).
    change ("{"%char :: join "," (snd g) ++ ["}"%char])
      with (["{"%char] ++ join "," (snd g) ++ ["}"%char]).
    rewrite !stays_open_app. change (depth_after 1 ["{"%char]) with 2%Z.
    rewrite D2, (O2 ltac:(lia)). reflexivity.
Qed.

Lemma groups_depth (cols : nat) (gs : list (str * list str)) :
  1 <= cols -> forallb (good_group cols) gs = true ->
  depth_after 1 (concat (map render_group gs)) = 1%Z /\
  stays_open 1 (concat (map render_group gs)) = true.
Proof.
  intros Hc. induction gs as [|g gs IH]; intros H; [split; reflexivity|].
  simpl in H. apply andb_true_iff in H as [Hg H].
  destruct (render_group_depth cols g Hc Hg) as [D O]. destruct (IH H) as [D' O'].
  simpl. rewrite depth_after_app, stays_open_app, D, O, D', O'. split; reflexivity.
Qed.

Lemma groups_findall (cols : nat) (last : str) (gs : list (str * list str)) :
  1 <= cols -> forallb (good_group cols) gs = true -> lacks "{" last = true ->
  forall fuel, length (concat (map render_group gs) ++ last) < fuel ->
    re_findall_fuel fuel row_pattern (concat (map render_group gs) ++ last)
    = map (fun g => join "," (snd g)) gs.
Proof.
  intros Hc Hgs Hlast. induction gs as [|g gs IH]; intros fuel Hf.
  - simpl in *. rewrite <- (app_nil_r last).
    replace fuel with (length last + (fuel - length last)) by lia.
    rewrite (findall_skip last Hlast). apply findall_nil.
  - simpl in Hgs. apply andb_true_iff in Hgs as [Hg Hgs].
    destruct (good_group_row cols g Hc Hg) as (S1 & _ & Rne & _ & R2 & _).
    cbn [map concat]. unfold render_group at 1. rewrite <- !app_assoc.
    cbn [map concat] in Hf. unfold render_group at 1 in Hf.
    rewrite <- !app_assoc in Hf. rewrite !length_app in Hf. cbn [length app] in Hf.
    rewrite !length_app in Hf. cbn [length] in Hf.
    replace fuel with (length (fst g) + S (fuel - length (fst g) - 1)) by lia.
    rewrite (findall_skip (fst g) S1).
    cbn [app]. rewrite <- app_assoc. cbn [app].
    rewrite (findall_group _ _ _ Rne R2). f_equal.
    apply IH; [exact Hgs|]. rewrite length_app. lia.
Qed.

Lemma groups_parse (cols : nat) (gs : list (str * list str)) :
  1 <= cols -> forallb (good_group cols) gs = true ->
  Forall2 (fun r vs => parse_row r = Ok vs /\ length vs = cols)
          (map (fun g => join "," (snd g)) gs)
          (map (fun g => map token_value (snd g)) gs).
Proof.
  intros Hc. induction gs as [|g gs IH]; intros H; [constructor|].
  simpl in H. apply andb_true_iff in H as [Hg H].
  destruct (good_group_row cols g Hc Hg) as (_ & _ & _ & _ & _ & P & L).
  simpl. constructor; [split; assumption|apply IH; exact H].
Qed.

Lemma well_formed_parts (cols : nat) (l : source_literal) :
  well_formed_literal cols l = true ->
  (forall i, i < length (sl_prefix l) ->
     starts_with (s_ "pca_weight[") (skipn i (render_literal l)) = false) /\
  forallb (fun c => not_newline c && negb (Ascii.eqb c "]")) (sl_dim1 l) = true /\
  forallb (fun c => not_newline c && negb (Ascii.eqb c "]")) (sl_dim2 l) = true /\
  forallb is_space (sl_ws1 l) = true /\ forallb is_space (sl_ws2 l) = true /\
  forallb (good_group cols) (sl_groups l) = true /\
  lacks "{" (sl_last l) = true /\ lacks "}" (sl_last l) = true /\ 1 <= cols.
Proof.
  unfold well_formed_literal. intros H.
  repeat (apply andb_true_iff in H as [H ?]).
  repeat split; try assumption.
  - intros i Hi. rewrite forallb_forall in H. apply negb_true_iff. apply H.
    apply in_range. exact Hi.
  - apply Nat.leb_le. assumption.
Qed.

Lemma render_literal_header (l : source_literal) (rest : str) :
  render_header l ++ rest =
  s_ "pca_weight[" ++ sl_dim1 l ++ s_ "][" ++ sl_dim2 l ++ "]"%char ::
  sl_ws1 l ++ "="%char :: sl_ws2 l ++ "{"%char :: rest.
Proof.
  unfold render_header. repeat (rewrite <- app_assoc; cbn [app]). reflexivity.
Qed.

Lemma well_formed_search (cols : nat) (l : source_literal) :
  well_formed_literal cols l = true ->
  re_search decl_pattern (render_literal l)
  = Some (length (sl_prefix l), length (sl_prefix l ++ render_header l)).
Proof.
  intros H. destruct (well_formed_parts cols l H) as (P & D1 & D2 & W1 & W2 & _).
  unfold re_search.
  rewrite (re_search_from_skip decl_pattern (length (sl_prefix l))).
  - unfold render_literal. rewrite skipn_app, skipn_all, Nat.sub_diag. cbn [skipn app].
    rewrite render_literal_header.
    erewrite re_search_found by (apply match_header; assumption).
    rewrite <- render_literal_header. f_equal. f_equal.
    rewrite !length_app. cbn [length]. lia.
  - unfold render_literal. rewrite length_app. lia.
  - intros i Hi. unfold decl_pattern, literal. apply match_literal_fail. apply P. exact Hi.
Qed.

Lemma well_formed_body (cols : nat) (l : source_literal) :
  well_formed_literal cols l = true ->
  array_text (render_literal l) (length (sl_prefix l ++ render_header l)) = render_body l.
Proof.
  intros H. destruct (well_formed_parts cols l H) as (_ & _ & _ & _ & _ & G & L1 & L2 & Hc).
  set (pre := sl_prefix l ++ render_header l).
  set (text := render_literal l).
  assert (Ht : text = pre ++ (render_body l ++ ["}"%char]) ++ sl_suffix l).
  { unfold text, pre, render_literal. repeat (rewrite <- app_assoc; cbn [app]). reflexivity. }
  destruct (groups_depth cols (sl_groups l) Hc G) as [D O].
  destruct (depth_plain (sl_last l) 1 L1 L2) as [D' O'].
  assert (Hd : depth_after 1 (render_body l ++ ["}"%char]) = 0%Z).
  { unfold render_body. rewrite !depth_after_app, D, D'. reflexivity. }
  assert (Ho : stays_open 1 (render_body l ++ ["}"%char]) = true).
  { unfold render_body. rewrite !stays_open_app, !depth_after_app, O, D, (O' ltac:(lia)), D'.
    reflexivity. }
  assert (Hw : while_exits (scan_cond text) (scan_body text)
                 (length (render_body l ++ ["}"%char]) + 0) (1%Z, length pre)
                 (0%Z, length pre + length (render_body l ++ ["}"%char]))).
  { apply (scan_passes text _ pre (sl_suffix l) 1 0 _ Ht Ho).
    rewrite Hd. apply while_exit. reflexivity. }
  unfold array_text, scan_braces.
  rewrite (while_loop_exits _ _ _ _ _ Hw).
  - rewrite Ht. rewrite <- (app_assoc (render_body l)). cbn [app].
    rewrite length_app. cbn [length].
    rewrite Nat.add_assoc. apply slice_middle.
  - rewrite Ht, !length_app. lia.
Qed.

(** C3. A source text whose array literal is well formed for [cols] columns
    (the declaration is the first occurrence of the name, the dimensions
    hold no closing bracket, each brace group holds [cols] numeric tokens
    separated by commas, no other brace stands in the body) is extracted,
    with [rows] the number of its groups, as the matrix of the values of its
    tokens in the order of the text: [rows] rows of [cols] values.  The
    literal of the scenario is an instance. *)
Theorem extract_well_formed (cols : nat) (l : source_literal) :
  well_formed_literal cols l = true ->
  extract_pca_matrix_text (length (sl_groups l)) cols (render_literal l)
  = Ok (literal_matrix l) /\
  length (literal_matrix l) = length (sl_groups l) /\
  Forall (fun row => length row = cols) (literal_matrix l).
Proof.
  intros H. pose proof (well_formed_parts cols l H) as (_ & _ & _ & _ & _ & G & L1 & _ & Hc).
  pose proof (groups_parse cols (sl_groups l) Hc G) as Hp.
  repeat split.
  - unfold extract_pca_matrix_text.
    rewrite (well_formed_search cols l H), (well_formed_body cols l H).
    unfold re_findall, render_body.
    rewrite (groups_findall cols (sl_last l) (sl_groups l) Hc G L1) by lia.
    rewrite length_map, Nat.eqb_refl. cbn [negb].
    apply parse_rows_ok. exact Hp.
  - unfold literal_matrix. apply length_map.
  - unfold literal_matrix. apply Forall_forall. intros row Hrow.
    apply in_map_iff in Hrow as (g & <- & Hg).
    rewrite forallb_forall in G. specialize (G g Hg).
    destruct (good_group_row cols g Hc G) as (_ & _ & _ & _ & _ & _ & Hl). exact Hl.
Qed.

Lemma extract_well_formed_witness :
  extract_pca_matrix_text 2 2 literal_2x2
  = Ok [[f1_0; f2_0]; [f3_0; f4_0]].
Proof.
  pose proof (extract_well_formed 2 source_2x2) as H.
  assert (Hw : well_formed_literal 2 source_2x2 = true) by (vm_compute; reflexivity).
  destruct (H Hw) as [H1 _]. exact H1.
Defined.

(* ================================================================== *)
(** ** The generator *)

Lemma mapM_range_ok {B : Type} (f : nat -> result B) (g : nat -> B) (N : nat) :
  (forall i, i < N -> f i = Ok (g i)) -> mapM f (range N) = Ok (map g (range N)).
Proof. intros H. apply mapM_ok. intros i Hi. apply H, in_range, Hi. Qed.

Lemma getitem2_map_range (g : nat -> nat -> float) (N M i j : nat) :
  i < N -> j < M ->
  getitem2 (map (fun a => map (fun b => g a b) (range M)) (range N)) i j = Ok (g i j).
Proof.
  intros Hi Hj. unfold getitem2.
  rewrite (getitem_map_range (fun a => map (fun b => g a b) (range M)) N i Hi). simpl.
  apply (getitem_map_range (fun b => g i b) M j Hj).
Qed.

Lemma float_of_int_ok (z : Z) :
  is_ok (float_of_int z) = true -> float_of_int z = Ok (round_int z).
Proof. unfold float_of_int. destruct (is_inf (round_int z)); [discriminate|reflexivity]. Qed.

Lemma math_1_finite (func : float -> float) (x : float) :
  is_finite (func x) = true -> math_1 func x = Ok (func x).
Proof. unfold math_1. destruct (func x); simpl; try discriminate; reflexivity. Qed.

Lemma float_pow2_finite (rt : runtime) (x : float) :
  is_finite (float_pow2_value rt x) = true -> float_pow2 rt x = Ok (float_pow2_value rt x).
Proof.
  unfold float_pow2. destruct (float_pow2_value rt x); simpl; try discriminate;
    intros _; rewrite !andb_false_r; reflexivity.
Qed.

Lemma truediv_nonzero (x y : float) :
  is_zero y = false -> truediv x y = Ok (fdiv x y).
Proof. unfold truediv. intros ->. reflexivity. Qed.

Lemma ortho_y_factor_ok (N : nat) :
  is_ok (ortho_y_factor N) = true -> ortho_y_factor N = Ok (spec_ortho_y N).
Proof.
  unfold ortho_y_factor, spec_ortho_y, float_of_int, truediv, math_sqrt, math_1.
  destruct (is_inf (round_int (Z.of_nat N - 1))); simpl; [discriminate|].
  destruct (is_zero (round_int (Z.of_nat N - 1))); simpl; [discriminate|].
  destruct (is_nan (fsqrt _) && negb _); simpl; [discriminate|].
  destruct (is_inf (fsqrt _) && _); simpl; [discriminate|]. reflexivity.
Qed.

(** The arithmetic on the size is defined for every size from 2 to [max_size]. *)
Lemma sizes_checked :
  forallb (fun z => is_ok (float_of_int (Z.of_nat z)) &&
                    negb (is_zero (round_int (Z.of_nat z)))) (seq 1 (2 * max_size + 1)) &&
  forallb (fun N => is_ok (ortho_y_factor N)) (seq 2 (max_size - 1)) = true.
Proof. vm_compute. reflexivity. Qed.

Lemma size_int_ok (z : nat) :
  z <= 2 * max_size + 1 -> float_of_int (Z.of_nat z) = Ok (round_int (Z.of_nat z)).
Proof.
  intros H. destruct z as [|z]; [reflexivity|].
  pose proof sizes_checked as C. apply andb_true_iff in C as [C _].
  rewrite forallb_forall in C. specialize (C (S z)).
  apply float_of_int_ok. apply andb_true_iff in C as [C _]; [exact C|].
  apply in_seq. lia.
Qed.

Lemma size_int_nonzero (z : nat) :
  1 <= z <= 2 * max_size + 1 -> is_zero (round_int (Z.of_nat z)) = false.
Proof.
  intros H. pose proof sizes_checked as C. apply andb_true_iff in C as [C _].
  rewrite forallb_forall in C. specialize (C z).
  apply andb_true_iff in C as [_ C]; [apply negb_true_iff; exact C|].
  apply in_seq. lia.
Qed.

Lemma size_ortho_y (N : nat) :
  2 <= N <= max_size -> ortho_y_factor N = Ok (spec_ortho_y N).
Proof.
  intros H. apply ortho_y_factor_ok.
  pose proof sizes_checked as C. apply andb_true_iff in C as [_ C].
  rewrite forallb_forall in C. apply C. apply in_seq. unfold max_size in *. lia.
Qed.

Lemma cos_arg_ok (N k n : nat) :
  2 <= N <= max_size -> k < N -> n < N -> cos_arg N k n = Ok (spec_angle N k n).
Proof.
  intros HN Hk Hn. unfold cos_arg, spec_angle.
  rewrite (size_int_ok k) by lia. cbn [bind].
  replace (2 * Z.of_nat n + 1)%Z with (Z.of_nat (2 * n + 1)) by lia.
  rewrite (size_int_ok (2 * n + 1)) by lia. cbn [bind].
  replace (2 * Z.of_nat N)%Z with (Z.of_nat (2 * N)) by lia.
  rewrite (size_int_ok (2 * N)) by lia. cbn [bind].
  apply truediv_nonzero. apply size_int_nonzero. lia.
Qed.

Lemma runtime_defined_parts (rt : runtime) (N : nat) :
  runtime_defined rt N = true ->
  (forall k n, k < N -> n < N ->
     is_finite (libm_cos rt (spec_angle N k n)) = true /\
     is_finite (float_pow2_value rt (spec_F rt N k n)) = true) /\
  (forall k, k < N -> is_zero (spec_norm rt N k) = false).
Proof.
  unfold runtime_defined. intros H. rewrite forallb_forall in H. split.
  - intros k n Hk Hn. specialize (H k (proj2 (in_range N k) Hk)).
    apply andb_true_iff in H as [H _]. rewrite forallb_forall in H.
    specialize (H n (proj2 (in_range N n) Hn)). apply andb_true_iff in H. exact H.
  - intros k Hk. specialize (H k (proj2 (in_range N k) Hk)).
    apply andb_true_iff in H as [_ H]. apply negb_true_iff. exact H.
Qed.

Lemma build_F_ok (rt : runtime) (N : nat) :
  2 <= N <= max_size -> runtime_defined rt N = true ->
  build_F rt N spec_ortho_x (spec_ortho_y N) = Ok (spec_F_matrix rt N).
Proof.
  intros HN HR. destruct (runtime_defined_parts rt N HR) as [Hc _].
  unfold build_F, spec_F_matrix. apply mapM_range_ok. intros k Hk.
  apply mapM_range_ok. intros n Hn.
  rewrite (cos_arg_ok N k n HN Hk Hn). cbn [bind].
  unfold math_cos. rewrite math_1_finite by (apply Hc; assumption). cbn [bind].
  unfold spec_F. destruct (k =? 0); reflexivity.
Qed.

Lemma build_norms_sq_ok (rt : runtime) (N : nat) :
  runtime_defined rt N = true ->
  build_norms_sq rt N (spec_F_matrix rt N) = Ok (map (spec_norm rt N) (range N)).
Proof.
  intros HR. destruct (runtime_defined_parts rt N HR) as [Hc _].
  unfold build_norms_sq. apply mapM_range_ok. intros k Hk.
  rewrite (mapM_range_ok _ (fun n => float_pow2_value rt (spec_F rt N k n))).
  - reflexivity.
  - intros n Hn. unfold spec_F_matrix.
    rewrite (getitem2_map_range (spec_F rt N) N N k n Hk Hn). cbn [bind].
    apply float_pow2_finite. apply Hc; assumption.
Qed.

Lemma build_IDCT_ok (rt : runtime) (N : nat) :
  runtime_defined rt N = true ->
  build_IDCT N (spec_F_matrix rt N) (map (spec_norm rt N) (range N))
  = Ok (spec_G_matrix rt N).
Proof.
  intros HR. destruct (runtime_defined_parts rt N HR) as [_ Hz].
  unfold build_IDCT, spec_G_matrix. apply mapM_range_ok. intros n Hn.
  apply mapM_range_ok. intros k Hk. unfold spec_F_matrix.
  rewrite (getitem2_map_range (spec_F rt N) N N k n Hk Hn). cbn [bind].
  rewrite (getitem_map_range (spec_norm rt N) N k Hk). cbn [bind].
  apply truediv_nonzero. apply Hz. exact Hk.
Qed.

Lemma x_test_tail (N : nat) :
  forall b, 2 <= b -> repeat f0_0 N = map spec_x_test (seq b N).
Proof.
  induction N as [|N IH]; intros b Hb; [reflexivity|].
  simpl. rewrite <- (IH (S b)) by lia.
  unfold spec_x_test. destruct (Nat.eqb_spec b 1); [lia|reflexivity].
Qed.

Lemma x_test_ok (N : nat) :
  2 <= N -> setitem (repeat f0_0 N) 1 f1_0 = Ok (map spec_x_test (range N)).
Proof.
  intros H. destruct N as [|[|N]]; [lia|lia|].
  cbn [repeat setitem bind]. unfold range. cbn [seq map].
  change (spec_x_test 0) with f0_0. change (spec_x_test 1) with f1_0.
  rewrite <- (x_test_tail N 2) by lia. reflexivity.
Qed.

Lemma py_max_ok (xs : list float) :
  xs <> [] -> py_max xs = Ok (max_float xs).
Proof. destruct xs; [congruence|reflexivity]. Qed.

Lemma spot_check_ok (rt : runtime) (N : nat) :
  2 <= N ->
  spot_check rt N (spec_F_matrix rt N) (spec_G_matrix rt N) = Ok (spot_error rt N).
Proof.
  intros HN. unfold spot_check. rewrite (x_test_ok N HN). cbn [bind].
  rewrite (mapM_range_ok _ (spec_X_test rt N)).
  2:{ intros k Hk.
      rewrite (mapM_range_ok _ (fun n => fmul (spec_F rt N k n) (spec_x_test n))); [reflexivity|].
      intros n Hn. unfold spec_F_matrix.
      rewrite (getitem2_map_range (spec_F rt N) N N k n Hk Hn). cbn [bind].
      rewrite (getitem_map_range spec_x_test N n Hn). reflexivity. }
  cbn [bind].
  rewrite (mapM_range_ok _ (spec_x_rec rt N)).
  2:{ intros n Hn.
      rewrite (mapM_range_ok _ (fun k => fmul (spec_G rt N n k) (spec_X_test rt N k)));
        [reflexivity|].
      intros k Hk. unfold spec_G_matrix.
      rewrite (getitem2_map_range (fun a b => spec_G rt N a b) N N n k Hn Hk). cbn [bind].
      rewrite (getitem_map_range (spec_X_test rt N) N k Hk). reflexivity. }
  cbn [bind].
  rewrite (mapM_range_ok _ (fun n => fabs (fsub (spec_x_rec rt N n) (spec_x_test n)))).
  2:{ intros n Hn.
      rewrite (getitem_map_range (spec_x_rec rt N) N n Hn). cbn [bind].
      rewrite (getitem_map_range spec_x_test N n Hn). reflexivity. }
  cbn [bind]. apply py_max_ok.
  destruct N; [lia|]. unfold range. simpl. discriminate.
Qed.

Lemma generate_ok (rt : runtime) (N : nat) (w : world) :
  2 <= N <= max_size -> runtime_defined rt N = true ->
  generate_idct_matrix rt N w
  = (Ok (spec_G_matrix rt N), add_output w (verifier_output rt N)).
Proof.
  intros HN HR. unfold generate_idct_matrix, bindS, lift.
  change (math_sqrt f2_0) with (Ok spec_ortho_x).
  rewrite (size_ortho_y N HN), (build_F_ok rt N HN HR), (build_norms_sq_ok rt N HR),
    (build_IDCT_ok rt N HR), (spot_check_ok rt N (proj1 HN)).
  unfold print, ret, add_output, verifier_output. cbn [stdout readable writable files].
  destruct (flt f1em6 (spot_error rt N)); cbn [stdout readable writable files];
    rewrite <- ?app_assoc; reflexivity.
Qed.

(* ================================================================== *)
(** ** Single precision *)

Lemma iter_pos_iter {A : Type} (f : A -> A) (p : positive) :
  forall x, iter_pos f p x = Pos.iter f x p.
Proof.
  induction p as [p IH|p IH|]; intros x; simpl.
  - rewrite !IH. rewrite <- !Pos.iter_swap. reflexivity.
  - rewrite !IH. reflexivity.
  - reflexivity.
Qed.

Lemma digits2_shift (m d : positive) :
  digits2_pos (Pos.iter xO m d) = (digits2_pos m + d)%positive.
Proof.
  induction d as [|d IH] using Pos.peano_ind.
  - simpl. lia.
  - rewrite Pos.iter_succ. simpl. rewrite IH. lia.
Qed.

Lemma shr_shift (m d : positive) :
  iter_pos shr_1 d (Build_shr_record (Zpos (Pos.iter xO m d)) false false)
  = Build_shr_record (Zpos m) false false.
Proof.
  rewrite iter_pos_iter.
  induction d as [|d IH] using Pos.peano_ind.
  - reflexivity.
  - rewrite Pos.iter_succ_r. rewrite Pos.iter_succ. exact IH.
Qed.

Lemma digits2_bounds (m : positive) :
  (2 ^ (Zpos (digits2_pos m) - 1) <= Zpos m < 2 ^ Zpos (digits2_pos m))%Z.
Proof.
  induction m as [m IH|m IH|]; simpl digits2_pos.
  - rewrite Pos2Z.inj_succ.
    replace (Z.succ (Zpos (digits2_pos m)) - 1)%Z with (Zpos (digits2_pos m) - 1 + 1)%Z by lia.
    rewrite Z.pow_succ_r by lia. 
    assert (2 ^ (Zpos (digits2_pos m) - 1 + 1) = 2 * 2 ^ (Zpos (digits2_pos m) - 1))%Z
      by (rewrite Z.pow_add_r by lia; lia).
    lia.
  - rewrite Pos2Z.inj_succ.
    replace (Z.succ (Zpos (digits2_pos m)) - 1)%Z with (Zpos (digits2_pos m) - 1 + 1)%Z by lia.
    rewrite Z.pow_succ_r by lia.
    assert (2 ^ (Zpos (digits2_pos m) - 1 + 1) = 2 * 2 ^ (Zpos (digits2_pos m) - 1))%Z
      by (rewrite Z.pow_add_r by lia; lia).
    lia.
  - simpl. lia.
Qed.

(** What [bounded 24 128 m e] says. *)
Lemma bounded_single (m : positive) (e : Z) :
  bounded 24 128 m e = true ->
  (Zpos (digits2_pos m) <= 24 /\ -149 <= e <= 104 /\
   Z.max (Zpos (digits2_pos m) + e - 24) (-149) = e)%Z.
Proof.
  unfold bounded, canonical_mantissa, fexp, emin. intros H.
  apply andb_true_iff in H as [H1 H2]. apply Z.eqb_eq in H1. apply Z.leb_le in H2.
  change (3 - 128 - 24)%Z with (-149)%Z in H1. lia.
Qed.

(** The binary64 image of a binary32 value, in closed form. *)
Lemma of_single_finite (s : bool) (m : positive) (e : Z) :
  bounded 24 128 m e = true ->
  of_single (S754_finite s m e)
  = S754_finite s (Pos.iter xO m (Z.to_pos (53 - Zpos (digits2_pos m))))
                  (Zpos (digits2_pos m) + e - 53).
Proof.
  intros H. destruct (bounded_single m e H) as (Hd & He & _).
  unfold of_single, binary_round, shl_align, prec, emax.
  set (d := Z.to_pos (53 - Zpos (digits2_pos m))).
  assert (Hfexp : fexp 53 1024 (Zpos (digits2_pos m) + e) = (Zpos (digits2_pos m) + e - 53)%Z).
  { unfold fexp, emin. lia. }
  rewrite Hfexp.
  replace (Zpos (digits2_pos m) + e - 53 - e)%Z with (Zneg d) by (unfold d; lia).
  unfold binary_round_aux, shr_fexp, Zdigits2.
  rewrite digits2_shift.
  assert (Hd53 : Zpos (digits2_pos m + d) = 53%Z) by (unfold d; lia).
  rewrite Hd53.
  assert (Hf2 : fexp 53 1024 (53 + (Zpos (digits2_pos m) + e - 53)) = (Zpos (digits2_pos m) + e - 53)%Z).
  { unfold fexp, emin. lia. }
  rewrite Hf2, Z.sub_diag. cbn [shr shr_record_of_loc shr_m loc_of_shr_record round_nearest_even].
  unfold Zdigits2. rewrite digits2_shift, Hd53, Hf2, Z.sub_diag.
  cbn [shr shr_record_of_loc shr_m].
  destruct (Z.leb_spec (Zpos (digits2_pos m) + e - 53) (1024 - 53)); [reflexivity|lia].
Qed.

Lemma to_single_of_single (y : spec_float) :
  valid_binary 24 128 y = true -> to_single (of_single y) = y.
Proof.
  destruct y as [s|s| |s m e]; try reflexivity.
  intros H. simpl in H. rewrite (of_single_finite s m e H).
  destruct (bounded_single m e H) as (Hd & He & Hc).
  set (d := Z.to_pos (53 - Zpos (digits2_pos m))).
  unfold to_single, binary_round, shl_align.
  rewrite digits2_shift.
  assert (Hd53 : Zpos (digits2_pos m + d) = 53%Z) by (unfold d; lia).
  rewrite Hd53.
  assert (Hf : fexp 24 128 (53 + (Zpos (digits2_pos m) + e - 53)) = e).
  { unfold fexp, emin. change (3 - 128 - 24)%Z with (-149)%Z. lia. }
  rewrite Hf.
  replace (e - (Zpos (digits2_pos m) + e - 53))%Z with (Zpos d) by (unfold d; lia).
  unfold binary_round_aux, shr_fexp, Zdigits2.
  rewrite digits2_shift, Hd53, Hf.
  replace (e - (Zpos (digits2_pos m) + e - 53))%Z with (Zpos d) by (unfold d; lia).
  cbn [shr shr_record_of_loc]. rewrite shr_shift.
  cbn [shr_m loc_of_shr_record round_nearest_even].
  replace (Zpos (digits2_pos m) + e - 53 + Zpos d)%Z with e by (unfold d; lia).
  unfold Zdigits2.
  assert (Hf' : fexp 24 128 (Zpos (digits2_pos m) + e) = e).
  { unfold fexp, emin. change (3 - 128 - 24)%Z with (-149)%Z. lia. }
  rewrite Hf', Z.sub_diag. cbn [shr shr_record_of_loc shr_m].
  destruct (Z.leb_spec e (128 - 24)); [reflexivity|lia].
Qed.

Lemma pow_values :
  (2 ^ 8 = 256 /\ 2 ^ 16 = 65536 /\ 2 ^ 22 = 4194304 /\ 2 ^ 23 = 8388608 /\
   2 ^ 24 = 16777216 /\ 2 ^ 31 = 2147483648 /\ 2 ^ 32 = 4294967296)%Z.
Proof. repeat split. Qed.

Lemma single_bits_range (y : spec_float) :
  valid_binary 24 128 y = true -> (0 <= single_bits y < 2 ^ 32)%Z.
Proof.
  destruct pow_values as (P8 & P16 & P22 & P23 & P24 & P31 & P32).
  destruct y as [s|s| |s m e]; cbn [single_bits valid_binary]; intros H.
  - destruct s; unfold sign_bit; rewrite ?P31, ?P32; lia.
  - destruct s; unfold sign_bit; rewrite ?P31, ?P32, ?P23; lia.
  - rewrite ?P31, ?P32, ?P23, ?P22; lia.
  - destruct (bounded_single m e H) as (Hd & He & Hc).
    pose proof (digits2_bounds m) as Hm.
    assert (Zpos m < 2 ^ 24)%Z.
    { eapply Z.lt_le_trans; [apply Hm|]. apply Z.pow_le_mono_r; lia. }
    rewrite ?P31, ?P32, ?P23, ?P24 in *.
    destruct (Z.ltb_spec (Zpos m) 8388608); destruct s; unfold sign_bit; rewrite ?P31; lia.
Qed.

Lemma bits_single_bits (y : spec_float) :
  valid_binary 24 128 y = true -> bits_single (single_bits y) = y.
Proof.
  destruct y as [s|s| |s m e]; cbn [single_bits valid_binary]; intros H.
  - destruct s; reflexivity.
  - destruct s; reflexivity.
  - reflexivity.
  - destruct pow_values as (P8 & P16 & P22 & P23 & P24 & P31 & P32).
    destruct (bounded_single m e H) as (Hd & He & Hc).
    pose proof (digits2_bounds m) as Hm.
    assert (Hm24 : (Zpos m < 2 ^ 24)%Z).
    { eapply Z.lt_le_trans; [apply Hm|]. apply Z.pow_le_mono_r; lia. }
    unfold bits_single, sign_bit. rewrite ?P31, ?P23, ?P8, ?P24 in *.
    destruct (Z.ltb_spec (Zpos m) 8388608) as [Hsub|Hnorm].
    + assert (He' : e = (-149)%Z).
      { assert (Zpos (digits2_pos m) <= 23)%Z.
        { destruct (Z.le_gt_cases (Zpos (digits2_pos m)) 23) as [L|G]; [exact L|].
          exfalso. assert (2 ^ 23 <= 2 ^ (Zpos (digits2_pos m) - 1))%Z
            by (apply Z.pow_le_mono_r; lia). rewrite P23 in *. lia. }
        lia. }
      subst e.
      set (sb := if s then 2147483648%Z else 0%Z).
      assert (Hsb : sb = (256 * (if s then 1 else 0) * 8388608)%Z) by (unfold sb; destruct s; lia).
      assert (Hs : (2147483648 <=? sb + Zpos m)%Z = s).
      { unfold sb. destruct s; [apply Z.leb_le|apply Z.leb_gt]; lia. }
      assert (Hq : ((sb + Zpos m) / 8388608 = 256 * (if s then 1 else 0))%Z).
      { symmetry. apply (Z.div_unique _ _ _ (Zpos m)); lia. }
      assert (Hex : ((sb + Zpos m) / 8388608 mod 256 = 0)%Z).
      { rewrite Hq. symmetry. apply (Z.mod_unique _ _ (if s then 1 else 0)); lia. }
      assert (Hfr : ((sb + Zpos m) mod 8388608 = Zpos m)%Z).
      { symmetry. apply (Z.mod_unique _ _ (256 * (if s then 1 else 0))); lia. }
      rewrite Hs, Hex, Hfr. reflexivity.
    + set (sb := if s then 2147483648%Z else 0%Z).
      assert (Hsb : sb = (256 * (if s then 1 else 0) * 8388608)%Z) by (unfold sb; destruct s; lia).
      set (b := (sb + (e + 150) * 8388608 + (Zpos m - 8388608))%Z).
      assert (Hs : (2147483648 <=? b)%Z = s).
      { unfold b, sb. destruct s; [apply Z.leb_le|apply Z.leb_gt]; lia. }
      assert (Hq : (b / 8388608 = 256 * (if s then 1 else 0) + (e + 150))%Z).
      { symmetry. apply (Z.div_unique _ _ _ (Zpos m - 8388608)); [lia|]. unfold b. lia. }
      assert (Hex : (b / 8388608 mod 256 = e + 150)%Z).
      { rewrite Hq. symmetry. apply (Z.mod_unique _ _ (if s then 1 else 0)); [lia|].
        destruct s; lia. }
      assert (Hfr : (b mod 8388608 = Zpos m - 8388608)%Z).
      { symmetry. apply (Z.mod_unique _ _ (256 * (if s then 1 else 0) + (e + 150))); [lia|].
        unfold b. lia. }
      rewrite Hs, Hex, Hfr.
      destruct (Z.eqb_spec (e + 150) 255); [lia|].
      destruct (Z.eqb_spec (e + 150) 0); [lia|].
      replace (Zpos m - 8388608 + 8388608)%Z with (Zpos m) by lia.
      f_equal. lia.
Qed.

Lemma Z_of_byte_of_Z (z : Z) : Z_of_byte (byte_of_Z z) = (z mod 256)%Z.
Proof.
  unfold Z_of_byte, byte_of_Z.
  assert (Hr : (0 <= z mod 256 < 256)%Z) by (apply Z.mod_pos_bound; lia).
  destruct (Byte.of_N (Z.to_N (z mod 256))) as [b|] eqn:E.
  - apply Byte.to_of_N in E. rewrite E. lia.
  - apply Byte.of_N_None_iff in E. lia.
Qed.

Lemma le32_value_le32 (b : Z) :
  (0 <= b < 2 ^ 32)%Z ->
  match le32 b with
  | [b0; b1; b2; b3] => le32_value b0 b1 b2 b3 = b
  | _ => False
  end.
Proof.
  destruct pow_values as (P8 & P16 & P22 & P23 & P24 & P31 & P32).
  intros H. unfold le32, le32_value. rewrite !Z_of_byte_of_Z.
  rewrite P8, P16, P24, P32 in *.
  change 65536%Z with (256 * 256)%Z. change 16777216%Z with (256 * 256 * 256)%Z.
  rewrite <- !Z.div_div by lia.
  pose proof (Z.div_mod b 256 ltac:(lia)) as E0.
  pose proof (Z.div_mod (b / 256) 256 ltac:(lia)) as E1.
  pose proof (Z.div_mod (b / 256 / 256) 256 ltac:(lia)) as E2.
  assert (Hq : (0 <= b / 256 / 256 / 256 < 256)%Z).
  { split.
    - repeat apply Z.div_pos; lia.
    - repeat (apply Z.div_lt_upper_bound; [lia|]). lia. }
  rewrite (Z.mod_small (b / 256 / 256 / 256) 256) by exact Hq.
  lia.
Qed.

(** One value survives the file when it is representable. *)
Lemma unpack_single_bytes (x : float) (rest : list byte) :
  single_representable x ->
  unpack_floats (single_bytes x ++ rest) = x :: unpack_floats rest.
Proof.
  intros (y & Hv & ->). unfold single_bytes. rewrite (to_single_of_single y Hv).
  pose proof (le32_value_le32 (single_bits y) (single_bits_range y Hv)) as H.
  unfold le32 in *. cbn [app unpack_floats]. rewrite H, (bits_single_bits y Hv). reflexivity.
Qed.

Lemma representable_packable (x : float) :
  single_representable x -> packable x = true.
Proof.
  intros (y & Hv & ->). unfold packable. rewrite (to_single_of_single y Hv).
  destruct y; reflexivity.
Qed.

(* ================================================================== *)
(** ** The writer *)

Lemma struct_pack_f_ok (x : float) :
  packable x = true -> struct_pack_f x = Ok (single_bytes x).
Proof.
  unfold packable, struct_pack_f, single_bytes. intros H.
  apply negb_true_iff in H. rewrite H. reflexivity.
Qed.

Lemma for_each_write {A : Type} (body : A -> SE (list byte) unit) (g : A -> list byte)
    (l : list A) :
  (forall x, In x l -> forall acc, body x acc = (Ok tt, acc ++ g x)) ->
  forall acc, for_each l body acc = (Ok tt, acc ++ flat_map g l).
Proof.
  induction l as [|x l IH]; intros H acc; simpl.
  - rewrite app_nil_r. reflexivity.
  - unfold bindS. rewrite (H x (or_introl eq_refl)).
    rewrite IH by (intros y Hy; apply H; right; exact Hy).
    rewrite <- app_assoc. reflexivity.
Qed.

Lemma range_succ (n : nat) : range (S n) = 0 :: map S (range n).
Proof. unfold range. simpl. rewrite seq_shift. reflexivity. Qed.

Lemma list_as_map {A : Type} (d : A) (l : list A) :
  map (fun i => nth i l d) (range (length l)) = l.
Proof.
  induction l as [|x l IH]; [reflexivity|].
  cbn [length]. rewrite range_succ. cbn [map nth]. rewrite map_map. cbn [nth].
  rewrite IH. reflexivity.
Qed.

Lemma has_shape_parts (m : matrix) (rows cols : nat) :
  has_shape m rows cols = true ->
  length m = rows /\ forall row, In row m -> length row = cols.
Proof.
  unfold has_shape. intros H. apply andb_true_iff in H as [H1 H2].
  apply Nat.eqb_eq in H1. split; [exact H1|].
  intros row Hr. rewrite forallb_forall in H2. apply Nat.eqb_eq, H2, Hr.
Qed.

Lemma getitem_nth {A : Type} (d : A) (l : list A) (i : nat) :
  i < length l -> getitem l i = Ok (nth i l d).
Proof.
  intros H. unfold getitem. rewrite (nth_error_nth' l d H). reflexivity.
Qed.

Lemma flat_map_of_map {A B C : Type} (g : B -> list C) (h : A -> B) (l : list A) :
  flat_map g (map h l) = flat_map (fun x => g (h x)) l.
Proof. induction l as [|x l IH]; simpl; [reflexivity|]. rewrite IH. reflexivity. Qed.

Lemma flat_map_eq_in {A B : Type} (f g : A -> list B) (l : list A) :
  (forall x, In x l -> f x = g x) -> flat_map f l = flat_map g l.
Proof.
  induction l as [|x l IH]; intros H; simpl; [reflexivity|].
  rewrite (H x (or_introl eq_refl)), IH; [reflexivity|].
  intros y Hy. apply H. right. exact Hy.
Qed.

Lemma flat_map_of_concat {A B : Type} (f : A -> list B) (m : list (list A)) :
  flat_map f (concat m) = flat_map (fun row => flat_map f row) m.
Proof.
  induction m as [|row m IH]; simpl; [reflexivity|].
  rewrite flat_map_app, IH. reflexivity.
Qed.

Lemma flat_map_rows (m : matrix) (rows cols : nat) :
  has_shape m rows cols = true ->
  flat_map (fun r => flat_map (fun c => single_bytes (nth c (nth r m []) f0_0)) (range cols))
           (range rows)
  = matrix_bytes m.
Proof.
  intros H. destruct (has_shape_parts m rows cols H) as [Hr Hc].
  unfold matrix_bytes. rewrite flat_map_of_concat. subst rows.
  rewrite <- (flat_map_of_map
                (fun row => flat_map (fun c => single_bytes (nth c row f0_0)) (range cols))
                (fun r => nth r m [])).
  rewrite list_as_map. apply flat_map_eq_in. intros row Hrow.
  rewrite <- (flat_map_of_map single_bytes (fun c => nth c row f0_0)).
  rewrite <- (Hc row Hrow), list_as_map. reflexivity.
Qed.

Lemma write_matrix_ok (m : matrix) (rows cols : nat) (written : list byte) :
  has_shape m rows cols = true ->
  forallb (forallb packable) m = true ->
  write_matrix m rows cols written = (Ok tt, written ++ matrix_bytes m).
Proof.
  intros H Hp. destruct (has_shape_parts m rows cols H) as [Hr Hc].
  unfold write_matrix.
  rewrite (for_each_write _
             (fun r => flat_map (fun c => single_bytes (nth c (nth r m []) f0_0)) (range cols))).
  - rewrite (flat_map_rows m rows cols H). reflexivity.
  - intros r Hin acc. apply in_range in Hin.
    assert (Hrow : In (nth r m []) m) by (apply nth_In; lia).
    apply (for_each_write _ (fun c => single_bytes (nth c (nth r m []) f0_0))).
    intros c Hcin acc'. apply in_range in Hcin.
    unfold bindS, lift, getitem2.
    rewrite (getitem_nth [] m r) by lia. cbn [bind].
    rewrite (getitem_nth f0_0 (nth r m []) c) by (rewrite (Hc _ Hrow); exact Hcin).
    cbn [bind]. rewrite struct_pack_f_ok; [reflexivity|].
    rewrite forallb_forall in Hp. specialize (Hp _ Hrow). rewrite forallb_forall in Hp.
    apply Hp. apply nth_In. rewrite (Hc _ Hrow). exact Hcin.
Qed.

Lemma matrix_bytes_length (m : matrix) (rows cols : nat) :
  has_shape m rows cols = true -> length (matrix_bytes m) = rows * cols * 4.
Proof.
  intros H. destruct (has_shape_parts m rows cols H) as [Hr Hc]. subst rows.
  unfold matrix_bytes.
  assert (Hl : forall xs, length (flat_map single_bytes xs) = length xs * 4).
  { induction xs as [|x xs IH]; [reflexivity|]. simpl. rewrite IH. lia. }
  rewrite Hl. f_equal. clear H Hl.
  induction m as [|row m IH]; [reflexivity|].
  simpl. rewrite length_app, IH, (Hc row (or_introl eq_refl)).
  - reflexivity.
  - intros r Hin. apply Hc. right. exact Hin.
Qed.

Lemma unpack_matrix_bytes (xs : list float) :
  (forall x, In x xs -> single_representable x) ->
  unpack_floats (flat_map single_bytes xs) = xs.
Proof.
  induction xs as [|x xs IH]; intros H; [reflexivity|].
  cbn [flat_map]. rewrite unpack_single_bytes by (apply H; left; reflexivity).
  rewrite IH by (intros y Hy; apply H; right; exact Hy). reflexivity.
Qed.

Lemma rows_of_concat (m : matrix) (cols : nat) :
  (forall row, In row m -> length row = cols) ->
  rows_of (length m) cols (concat m) = m.
Proof.
  induction m as [|row m IH]; intros H; [reflexivity|].
  cbn [length rows_of concat].
  assert (Hl : length row = cols) by (apply H; left; reflexivity).
  rewrite firstn_app, skipn_app, <- Hl, firstn_all, skipn_all, Nat.sub_diag.
  simpl. rewrite app_nil_r. f_equal. rewrite Hl. apply IH.
  intros r Hr. apply H. right. exact Hr.
Qed.

Lemma decode_matrix_bytes (m : matrix) (rows cols : nat) :
  has_shape m rows cols = true ->
  (forall row x, In row m -> In x row -> single_representable x) ->
  decode_matrix rows cols (matrix_bytes m) = m.
Proof.
  intros H Hrep. destruct (has_shape_parts m rows cols H) as [Hr Hc]. subst rows.
  unfold decode_matrix, matrix_bytes. rewrite unpack_matrix_bytes.
  - apply rows_of_concat. exact Hc.
  - intros x Hx. apply in_concat in Hx as (row & Hrow & Hx). eapply Hrep; eassumption.
Qed.

Lemma save_matrix_binary_ok (m : matrix) (path : str) (rows cols : nat) (w : world) :
  has_shape m rows cols = true ->
  writable w path = true ->
  forallb (forallb packable) m = true ->
  save_matrix_binary m path rows cols w
  = (Ok tt, {| readable := readable w; writable := writable w;
               files := (path, matrix_bytes m) :: files w;
               stdout := stdout w ++ [OutSaved rows cols path (rows * cols * 4)] |}).
Proof.
  intros H Hw Hp. unfold save_matrix_binary. rewrite Hw.
  rewrite (write_matrix_ok m rows cols [] H Hp). reflexivity.
Qed.

(* ================================================================== *)
(** ** A complete run *)

Lemma parse_rows_shape (C : nat) (rows : list str) :
  forall i acc m, parse_rows C i rows acc = Ok m ->
    length m = length acc + length rows /\
    forall row, In row m -> In row acc \/ length row = C.
Proof.
  induction rows as [|r rows IH]; intros i acc m; simpl.
  - intros H; injection H as <-. split; [lia|]. intros row Hr. left. exact Hr.
  - destruct (parse_row r) as [vs|e]; simpl; [|discriminate].
    destruct (Nat.eqb_spec (length vs) C) as [E|E]; simpl; [|discriminate].
    intros H. apply IH in H as [Hl Hin]. split.
    + rewrite Hl, length_app. simpl. lia.
    + intros row Hr. destruct (Hin row Hr) as [Ha|Hc]; [|right; exact Hc].
      apply in_app_or in Ha as [Ha|[<-|[]]]; [left; exact Ha|right; exact E].
Qed.

Lemma extract_shape (R C : nat) (text : str) (m : matrix) :
  extract_pca_matrix_text R C text = Ok m -> has_shape m R C = true.
Proof.
  unfold extract_pca_matrix_text.
  destruct (re_search decl_pattern text) as [[s start]|]; [|discriminate].
  destruct (Nat.eqb_spec (length (re_findall row_pattern (array_text text start))) R) as [E|E];
    simpl; [|discriminate].
  intros H. apply parse_rows_shape in H as [Hl Hin]. simpl in Hl.
  unfold has_shape. apply andb_true_iff. split.
  - apply Nat.eqb_eq. lia.
  - apply forallb_forall. intros row Hr. apply Nat.eqb_eq.
    destruct (Hin row Hr) as [[]|Hc]. exact Hc.
Qed.

Lemma spec_G_matrix_shape (rt : runtime) (N : nat) :
  has_shape (spec_G_matrix rt N) N N = true.
Proof.
  unfold has_shape, spec_G_matrix, range. rewrite length_map, length_seq, Nat.eqb_refl.
  apply forallb_forall. intros row Hr. apply in_map_iff in Hr as (n & <- & _).
  rewrite length_map, length_seq. apply Nat.eqb_refl.
Qed.

Lemma main_ok (rt : runtime) (R N : nat) (argv : list str) (w : world)
    (text : str) (pca : matrix) :
  readable w (firmware_path argv) = Some text ->
  extract_pca_matrix_text R N text = Ok pca ->
  1 <= R -> 2 <= N <= max_size -> runtime_defined rt N = true ->
  writable w ipca_path = true -> writable w idct_path = true ->
  forallb (forallb packable) pca = true ->
  forallb (forallb packable) (spec_G_matrix rt N) = true ->
  main rt R N argv w
  = (Ok tt, {| readable := readable w; writable := writable w;
               files := (idct_path, matrix_bytes (spec_G_matrix rt N)) ::
                        (ipca_path, matrix_bytes pca) :: files w;
               stdout := stdout w ++ run_output rt R N pca |}).
Proof.
  intros Hr Hx HR HN Hrt Hw1 Hw2 Hp1 Hp2.
  pose proof (extract_shape R N text pca Hx) as Hs.
  destruct (has_shape_parts pca R N Hs) as [Hl _].
  assert (H0 : getitem pca 0 = Ok (nth 0 pca [])) by (apply getitem_nth; lia).
  assert (HG0 : getitem (spec_G_matrix rt N) 0 = Ok (nth 0 (spec_G_matrix rt N) [])).
  { apply getitem_nth. destruct (has_shape_parts _ _ _ (spec_G_matrix_shape rt N)) as [-> _]. lia. }
  assert (HGl : length (spec_G_matrix rt N) = N /\ length (nth 0 (spec_G_matrix rt N) []) = N).
  { destruct (has_shape_parts _ _ _ (spec_G_matrix_shape rt N)) as [E1 E2]. split; [exact E1|].
    apply E2, nth_In. lia. }
  destruct HGl as [HGl HGr].
  unfold main, bindS at 1. unfold print at 1. cbn beta iota.
  unfold bindS at 1. unfold extract_pca_matrix, bindS at 1, read_text, lift.
  cbn [readable]. rewrite Hr, Hx.
  unfold bindS. rewrite H0. unfold print. cbn beta iota.
  rewrite generate_ok by assumption. unfold add_output. cbn [readable writable files stdout].
  rewrite HG0, HGl, HGr.
  rewrite save_matrix_binary_ok by assumption. cbn [readable writable files stdout].
  rewrite save_matrix_binary_ok by (try assumption; apply spec_G_matrix_shape).
  cbn [readable writable files stdout].
  unfold run_output. repeat rewrite <- app_assoc. reflexivity.
Qed.

(* ================================================================== *)
(** ** The claims on the generator, the writer and the run *)

(** C1. For a size [N] from 2 to [max_size] on which the formulas are
    defined (finite cosines and squares, no zero norm), the generator returns
    the [N] by [N] matrix [G] with [G[n][k] = F[k][n] / norm(k)], where
    [ortho_x = sqrt(2)], [ortho_y = 0.5 * sqrt(2 / (N - 1))],
    [F[k][n] = ortho_y * cos(pi k (2n+1) / (2N))] for [k = 0] and
    [ortho_x * ortho_y * cos(pi k (2n+1) / (2N))] for [k > 0], and [norm(k)]
    is the sum over [n] of [F[k][n]] squared. *)
Theorem generate_idct_matrix_formula (rt : runtime) (N : nat) (w : world) :
  2 <= N <= max_size -> runtime_defined rt N = true ->
  fst (generate_idct_matrix rt N w) = Ok (spec_G_matrix rt N) /\
  has_shape (spec_G_matrix rt N) N N = true /\
  forall n k, n < N -> k < N ->
    getitem2 (spec_G_matrix rt N) n k = Ok (fdiv (spec_F rt N k n) (spec_norm rt N k)).
Proof.
  intros HN HR. rewrite (generate_ok rt N w HN HR). repeat split.
  - apply spec_G_matrix_shape.
  - intros n k Hn Hk. unfold spec_G_matrix.
    apply (getitem2_map_range (fun a b => spec_G rt N a b) N N n k Hn Hk).
Qed.

Lemma generate_idct_matrix_formula_witness :
  fst (generate_idct_matrix sample_runtime 4 blank_world) = Ok (spec_G_matrix sample_runtime 4) /\
  has_shape (spec_G_matrix sample_runtime 4) 4 4 = true /\
  forall n k, n < 4 -> k < 4 ->
    getitem2 (spec_G_matrix sample_runtime 4) n k
    = Ok (fdiv (spec_F sample_runtime 4 k n) (spec_norm sample_runtime 4 k)).
Proof.
  apply (generate_idct_matrix_formula sample_runtime 4 blank_world).
  - unfold max_size. lia.
  - vm_compute. reflexivity.
Defined.

Lemma generate_deterministic (rt : runtime) (N : nat) :
  exists r out, forall w,
    fst (generate_idct_matrix rt N w) = r /\
    stdout (snd (generate_idct_matrix rt N w)) = stdout w ++ out /\
    files (snd (generate_idct_matrix rt N w)) = files w.
Proof.
  unfold generate_idct_matrix, bindS, lift.
  destruct (math_sqrt f2_0) as [ox|e];
    [|exists (Raise e), []; intros w; simpl; rewrite app_nil_r; auto].
  destruct (ortho_y_factor N) as [oy|e];
    [|exists (Raise e), []; intros w; simpl; rewrite app_nil_r; auto].
  destruct (build_F rt N ox oy) as [F|e];
    [|exists (Raise e), []; intros w; simpl; rewrite app_nil_r; auto].
  destruct (build_norms_sq rt N F) as [ns|e];
    [|exists (Raise e), []; intros w; simpl; rewrite app_nil_r; auto].
  destruct (build_IDCT N F ns) as [G|e];
    [|exists (Raise e), []; intros w; simpl; rewrite app_nil_r; auto].
  destruct (spot_check rt N F G) as [err|e];
    [|exists (Raise e), []; intros w; simpl; rewrite app_nil_r; auto].
  exists (Ok G), (OutVerification err :: if flt f1em6 err then [OutWarning] else []).
  intros w. unfold print, ret. destruct (flt f1em6 err); simpl;
    rewrite <- ?app_assoc; auto.
Qed.

(** C8, with the sizes made explicit.  The generator reads nothing: its
    result and the lines it prints depend on the size (and the runtime) alone, and it touches no
    file.  It returns a matrix for every size from 2 to [max_size] on which
    the formulas are defined; for [N = 1] it raises [ZeroDivisionError]
    ([2.0 / (N - 1)]) and for [N = 0] the domain error of [math.sqrt]. *)
Theorem generate_idct_matrix_outcome (rt : runtime) (N : nat) :
  (exists r out, forall w,
     fst (generate_idct_matrix rt N w) = r /\
     stdout (snd (generate_idct_matrix rt N w)) = stdout w ++ out /\
     files (snd (generate_idct_matrix rt N w)) = files w) /\
  (2 <= N <= max_size -> runtime_defined rt N = true ->
   forall w, exists G, fst (generate_idct_matrix rt N w) = Ok G /\ has_shape G N N = true) /\
  (N = 1 -> forall w, fst (generate_idct_matrix rt N w) = Raise ZeroDivisionError) /\
  (N = 0 -> forall w, fst (generate_idct_matrix rt N w) = Raise MathDomainError).
Proof.
  split; [apply generate_deterministic|]. split; [|split].
  - intros HN HR w. exists (spec_G_matrix rt N). rewrite (generate_ok rt N w HN HR).
    split; [reflexivity|apply spec_G_matrix_shape].
  - intros -> w. reflexivity.
  - intros -> w. reflexivity.
Qed.

Lemma generate_idct_matrix_outcome_witness :
  exists G, fst (generate_idct_matrix sample_runtime 4 blank_world) = Ok G /\
            has_shape G 4 4 = true.
Proof.
  apply (proj1 (proj2 (generate_idct_matrix_outcome sample_runtime 4))).
  - unfold max_size. lia.
  - vm_compute. reflexivity.
Defined.

(** Without the bound on the size C8 does not hold: at basis size 1 the
    generator raises
    [ZeroDivisionError], at basis size 0 a math domain error. *)
Lemma generate_idct_matrix_size_one :
  fst (generate_idct_matrix sample_runtime 1 blank_world) = Raise ZeroDivisionError /\
  fst (generate_idct_matrix sample_runtime 0 blank_world) = Raise MathDomainError.
Proof. split; vm_compute; reflexivity. Qed.

Lemma str_eqb_refl (a : str) : str_eqb a a = true.
Proof. induction a as [|c a IH]; simpl; [reflexivity|]. rewrite Ascii.eqb_refl, IH. reflexivity. Qed.

(** C6, with the condition on the values.  For a matrix of the declared
    shape whose values all pack (none is a finite number beyond the single-precision range) and a
    destination that can be opened, the writer succeeds and the file holds
    the four little-endian bytes of the single-precision value of each
    entry, row by row and nothing else: [rows * cols * 4] bytes.  When every
    value is representable in single precision, reading the file back as
    [rows] rows of [cols] little-endian single-precision values gives the
    matrix again. *)
Theorem save_matrix_binary_format (m : matrix) (path : str) (rows cols : nat) (w : world) :
  has_shape m rows cols = true ->
  writable w path = true ->
  forallb (forallb packable) m = true ->
  fst (save_matrix_binary m path rows cols w) = Ok tt /\
  lookup_file (files (snd (save_matrix_binary m path rows cols w))) path
  = Some (matrix_bytes m) /\
  matrix_bytes m = flat_map single_bytes (concat m) /\
  length (matrix_bytes m) = rows * cols * 4 /\
  ((forall row x, In row m -> In x row -> single_representable x) ->
   decode_matrix rows cols (matrix_bytes m) = m).
Proof.
  intros Hs Hw Hp. rewrite (save_matrix_binary_ok m path rows cols w Hs Hw Hp).
  cbn [fst snd files lookup_file]. rewrite str_eqb_refl. repeat split.
  - apply matrix_bytes_length. exact Hs.
  - intros Hrep. apply decode_matrix_bytes; assumption.
Qed.

Lemma save_matrix_binary_format_witness :
  fst (save_matrix_binary [[f1_0; f2_0]; [f3_0; f4_0]] (s_ "out.bin") 2 2 blank_world) = Ok tt /\
  length (matrix_bytes [[f1_0; f2_0]; [f3_0; f4_0]]) = 16 /\
  decode_matrix 2 2 (matrix_bytes [[f1_0; f2_0]; [f3_0; f4_0]]) = [[f1_0; f2_0]; [f3_0; f4_0]].
Proof.
  pose proof (save_matrix_binary_format [[f1_0; f2_0]; [f3_0; f4_0]] (s_ "out.bin") 2 2
                blank_world eq_refl eq_refl eq_refl) as (H1 & _ & _ & H4 & H5).
  split; [exact H1|]. split; [exact H4|].
  apply H5. intros row x Hrow Hx.
  assert (Hin : In x [f1_0; f2_0; f3_0; f4_0]).
  { destruct Hrow as [<-|[<-|[]]]; simpl in Hx; simpl; tauto. }
  destruct Hin as [<-|[<-|[<-|[<-|[]]]]].
  - exists (S754_finite false 8388608 (-23)). split; vm_compute; reflexivity.
  - exists (S754_finite false 8388608 (-22)). split; vm_compute; reflexivity.
  - exists (S754_finite false 12582912 (-22)). split; vm_compute; reflexivity.
  - exists (S754_finite false 8388608 (-21)). split; vm_compute; reflexivity.
Defined.

(** Without the condition on the values C6 does not hold: a finite value
    beyond the range of
    single precision makes [struct.pack] raise [OverflowError]; the file is
    created and left empty. *)
Lemma save_matrix_binary_overflow :
  has_shape [[f1e39]] 1 1 = true /\
  fst (save_matrix_binary [[f1e39]] (s_ "out.bin") 1 1 blank_world) = Raise OverflowError /\
  lookup_file (files (snd (save_matrix_binary [[f1e39]] (s_ "out.bin") 1 1 blank_world)))
              (s_ "out.bin") = Some [].
Proof. repeat split; vm_compute; reflexivity. Qed.

(** C7. The spot check only prints: whatever error it measures, the
    generator returns the same matrix, and a run whose extraction and
    writes succeed ends normally with both files written.  The warning line
    is printed exactly when the measured error exceeds [1e-6]. *)
Theorem verifier_warning_is_not_fatal (rt : runtime) (R N : nat) (argv : list str)
    (w : world) (text : str) (pca : matrix) :
  readable w (firmware_path argv) = Some text ->
  extract_pca_matrix_text R N text = Ok pca ->
  1 <= R -> 2 <= N <= max_size -> runtime_defined rt N = true ->
  writable w ipca_path = true -> writable w idct_path = true ->
  forallb (forallb packable) pca = true ->
  forallb (forallb packable) (spec_G_matrix rt N) = true ->
  let final := main rt R N argv w in
  fst final = Ok tt /\
  lookup_file (files (snd final)) ipca_path = Some (matrix_bytes pca) /\
  lookup_file (files (snd final)) idct_path = Some (matrix_bytes (spec_G_matrix rt N)) /\
  stdout (snd final) = stdout w ++ run_output rt R N pca /\
  (In OutWarning (run_output rt R N pca) <-> flt f1em6 (spot_error rt N) = true).
Proof.
  intros Hr Hx HR HN Hrt Hw1 Hw2 Hp1 Hp2 final. unfold final.
  rewrite (main_ok rt R N argv w text pca Hr Hx HR HN Hrt Hw1 Hw2 Hp1 Hp2).
  cbn [fst snd files stdout lookup_file]. rewrite !str_eqb_refl.
  replace (str_eqb idct_path ipca_path) with false by (vm_compute; reflexivity).
  repeat split.
  - unfold run_output, verifier_output. intros Hin.
    destruct (flt f1em6 (spot_error rt N)); [reflexivity|].
    simpl in Hin. repeat (destruct Hin as [Hin|Hin]; [discriminate Hin|]). contradiction.
  - intros Hf. unfold run_output, verifier_output. rewrite Hf. simpl. tauto.
Qed.

Lemma verifier_warning_is_not_fatal_witness :
  fst (main coarse_runtime 2 2 sample_argv sample_world) = Ok tt /\
  In OutWarning (stdout (snd (main coarse_runtime 2 2 sample_argv sample_world))) /\
  lookup_file (files (snd (main coarse_runtime 2 2 sample_argv sample_world))) idct_path
  = Some (matrix_bytes (spec_G_matrix coarse_runtime 2)).
Proof.
  assert (H2 : extract_pca_matrix_text 2 2 literal_2x2 = Ok [[f1_0; f2_0]; [f3_0; f4_0]])
    by (vm_compute; reflexivity).
  assert (H4 : 2 <= 2 <= max_size) by (unfold max_size; lia).
  assert (H5 : runtime_defined coarse_runtime 2 = true) by (vm_compute; reflexivity).
  assert (H9 : forallb (forallb packable) (spec_G_matrix coarse_runtime 2) = true)
    by (vm_compute; reflexivity).
  pose proof (verifier_warning_is_not_fatal coarse_runtime 2 2 sample_argv sample_world
                literal_2x2 [[f1_0; f2_0]; [f3_0; f4_0]]
                eq_refl H2 (le_S 1 1 (le_n 1)) H4 H5 eq_refl eq_refl eq_refl H9) as T.
  cbv zeta in T. destruct T as (T1 & _ & T3 & T4 & T5).
  split; [exact T1|]. split; [|exact T3].
  rewrite T4. apply in_or_app. right. apply T5. vm_compute. reflexivity.
Defined.

(* ================================================================== *)
(** ** Further properties of the extraction and of the run *)

Lemma search_without_name (text : str) :
  forall pos, occurs (s_ "pca_weight[") text = false ->
    re_search_from decl_pattern text pos = None.
Proof.
  induction text as [|c s IH]; intros pos H; cbn [occurs] in H;
    apply orb_false_iff in H as [H1 H2]; cbn [re_search_from].
  - change decl_pattern with (map Chr (s_ "pca_weight[") ++
      [LazyStar not_newline; Chr "]"; Chr "["; LazyStar not_newline; Chr "]";
       GreedyStar is_space; Chr "="; GreedyStar is_space; Chr "{"]).
    rewrite (match_literal_fail _ _ _ H1). reflexivity.
  - change decl_pattern with (map Chr (s_ "pca_weight[") ++
      [LazyStar not_newline; Chr "]"; Chr "["; LazyStar not_newline; Chr "]";
       GreedyStar is_space; Chr "="; GreedyStar is_space; Chr "{"]).
    rewrite (match_literal_fail _ _ _ H1). apply IH. exact H2.
Qed.

(** X1. A text in which ["pca_weight["] occurs nowhere is refused with the
    error of the missing declaration, whatever the expected sizes. *)
Theorem declaration_not_found (R C : nat) (text : str) :
  occurs (s_ "pca_weight[") text = false ->
  extract_pca_matrix_text R C text = Raise DeclarationNotFound.
Proof.
  intros H. unfold extract_pca_matrix_text, re_search.
  rewrite (search_without_name text 0 H). reflexivity.
Qed.

Lemma declaration_not_found_witness :
  extract_pca_matrix_text 47 257 (s_ "float pca_weights[2][2] = {{1.0,2.0},{3.0,4.0}};")
  = Raise DeclarationNotFound.
Proof.
  apply (declaration_not_found 47 257). vm_compute. reflexivity.
Defined.

(** X2. Whatever the text, a matrix returned by the extraction has the
    expected number of rows, each of the expected number of values. *)
Theorem extraction_result_shape (R C : nat) (text : str) (m : matrix) :
  extract_pca_matrix_text R C text = Ok m ->
  length m = R /\ Forall (fun row => length row = C) m.
Proof.
  intros H. apply extract_shape in H. unfold has_shape in H.
  apply andb_true_iff in H as [H1 H2]. split.
  - apply Nat.eqb_eq. exact H1.
  - apply Forall_forall. intros row Hr. rewrite forallb_forall in H2.
    apply Nat.eqb_eq. apply H2. exact Hr.
Qed.

Lemma extraction_result_shape_witness :
  length [[f1_0; f2_0]; [f3_0; f4_0]] = 2 /\
  Forall (fun row => length row = 2) [[f1_0; f2_0]; [f3_0; f4_0]].
Proof.
  assert (H : extract_pca_matrix_text 2 2 literal_2x2 = Ok [[f1_0; f2_0]; [f3_0; f4_0]])
    by (vm_compute; reflexivity).
  exact (extraction_result_shape 2 2 literal_2x2 _ H).
Defined.

(** X3. An error of the extraction ends the run with that error: only the
    first banner has been printed and no file has been written. *)
Theorem extraction_failure_aborts_run (rt : runtime) (R C : nat) (argv : list str)
    (w : world) (text : str) (e : exn) :
  readable w (firmware_path argv) = Some text ->
  extract_pca_matrix_text R C text = Raise e ->
  fst (main rt R C argv w) = Raise e /\
  files (snd (main rt R C argv w)) = files w /\
  stdout (snd (main rt R C argv w))
  = stdout w ++ [OutText "=== Extracting PCA weight matrix ==="].
Proof.
  intros Hr He. unfold main, bindS, print, extract_pca_matrix, read_text, lift, bindS.
  simpl. rewrite Hr, He. repeat split.
Qed.

Lemma extraction_failure_aborts_run_witness :
  fst (main sample_runtime 2 3 sample_argv sample_world) = Raise (ColumnCountMismatch 0 3 2) /\
  files (snd (main sample_runtime 2 3 sample_argv sample_world)) = [] /\
  stdout (snd (main sample_runtime 2 3 sample_argv sample_world))
  = [OutText "=== Extracting PCA weight matrix ==="].
Proof.
  assert (H : extract_pca_matrix_text 2 3 literal_2x2 = Raise (ColumnCountMismatch 0 3 2))
    by (vm_compute; reflexivity).
  exact (extraction_failure_aborts_run sample_runtime 2 3 sample_argv sample_world
           literal_2x2 _ eq_refl H).
Defined.

(** X4. When the source file cannot be read, the run ends with the error of
    [open] and writes no file.  Without a command-line argument the file is
    the default firmware path. *)
Theorem unreadable_source_aborts_run (rt : runtime) (R C : nat) (argv : list str) (w : world) :
  readable w (firmware_path argv) = None ->
  fst (main rt R C argv w) = Raise (OSError (firmware_path argv)) /\
  files (snd (main rt R C argv w)) = files w.
Proof.
  intros Hr. unfold main, bindS, print, extract_pca_matrix, read_text, lift, bindS.
  simpl. rewrite Hr. split; reflexivity.
Qed.

Lemma unreadable_source_aborts_run_witness :
  fst (main sample_runtime 47 257 [s_ "gen_matrices.py"] blank_world)
  = Raise (OSError default_firmware_path) /\
  files (snd (main sample_runtime 47 257 [s_ "gen_matrices.py"] blank_world)) = [].
Proof.
  exact (unreadable_source_aborts_run sample_runtime 47 257 [s_ "gen_matrices.py"]
           blank_world eq_refl).
Defined.

(** X5. The scenario of size 4 on the sample runtime: the error the spot
    check measures on the unit vector [[0, 1, 0, 0]] is below [1e-6], and the
    generator prints the verification line alone, without a warning. *)
Theorem spot_check_size_four :
  flt (spot_error sample_runtime 4) f1em6 = true /\
  stdout (snd (generate_idct_matrix sample_runtime 4 blank_world))
  = [OutVerification (spot_error sample_runtime 4)].
Proof. split; vm_compute; reflexivity. Qed.

(* ================================================================== *)
(** ** The extraction: errors and layout *)





Lemma parse_row_pieces (ps : list str) :
  ps <> [] -> Forall (fun p => lacks "," p = true) ps ->
  parse_row (join "," ps) = mapM py_float (filter truthy (map strip ps)).
Proof.
  intros Hne Hc. unfold parse_row. rewrite (split_join "," ps Hne Hc).
  clear. induction ps as [|p ps IH]; [reflexivity|].
  cbn [filter map]. destruct (truthy (strip p)); [|exact IH].
  cbn [mapM]. rewrite IH. reflexivity.
Qed.

(** X7. Only the stripped pieces of a row count: two row texts whose
    pieces between the commas agree once stripped (they differ in blanks,
    tabs or line breaks around the numbers) give the same values, or the
    same error. *)
Theorem row_layout_is_ignored (ps qs : list str) :
  ps <> [] ->
  Forall (fun p => lacks "," p = true) ps ->
  Forall (fun q => lacks "," q = true) qs ->
  map strip ps = map strip qs ->
  parse_row (join "," ps) = parse_row (join "," qs).
Proof.
  intros Hne Hp Hq E.
  assert (Hne' : qs <> []) by (intros ->; destruct ps; [congruence|discriminate]).
  rewrite (parse_row_pieces ps Hne Hp), (parse_row_pieces qs Hne' Hq), E. reflexivity.
Qed.

Lemma row_layout_is_ignored_witness :
  parse_row ("010"%char :: s_ "   1.0 ,"  ++ "009"%char :: s_ "2.5e-1" ++ ["013"%char; "010"%char])
  = parse_row (s_ "1.0,2.5e-1").
Proof.
  apply (row_layout_is_ignored
           ["010"%char :: s_ "   1.0 "; "009"%char :: s_ "2.5e-1" ++ ["013"%char; "010"%char]]
           [s_ "1.0"; s_ "2.5e-1"]).
  - discriminate.
  - repeat constructor.
  - repeat constructor.
  - vm_compute. reflexivity.
Defined.

Lemma suffix_char (c : ascii) :
  c_float_suffix c = true ->
  is_digit c = false /\ Ascii.eqb c "_" = false /\ Ascii.eqb c "." = false /\
  Ascii.eqb c "e" = false /\ Ascii.eqb c "E" = false /\
  is_space c = false /\ is_c_space c = false /\ is_ascii c = true.
Proof.
  destruct c as [[] [] [] [] [] [] [] []]; vm_compute; intros H;
    try discriminate H; repeat split.
Qed.

Lemma parse_float_suffix (d : decimal) (c : ascii) :
  well_formed_decimal d = true -> c_float_suffix c = true ->
  parse_float (render_decimal d ++ [c]) = None.
Proof.
  destruct d as [sg ip fr ex].
  unfold well_formed_decimal, render_decimal, frac_digits. simpl.
  intros H Hsfx. apply andb_true_iff in H as [H Hex]. apply andb_true_iff in H as [H Hne].
  apply andb_true_iff in H as [Hip Hfr].
  destruct (suffix_char c Hsfx) as (Cd & Cu & Cp & Ce & CE & _).
  assert (Hstop : stops_digits [c] = true) by (simpl; rewrite Cd, Cu; reflexivity).
  rewrite <- !app_assoc.
  set (body := ip ++ render_frac fr ++ render_exp ex ++ [c]).
  assert (Hhead : exists c0 r, body = c0 :: r /\ (is_digit c0 = true \/ c0 = "."%char)).
  { unfold body. destruct ip as [|c0 ip].
    - destruct fr as [f|]; [|discriminate Hne]. simpl. eauto.
    - simpl in Hip. apply andb_true_iff in Hip as [Hc _]. simpl. eauto. }
  destruct Hhead as (c0 & r & Hbody & Hc).
  destruct (not_a_word c0 r Hc) as (W1 & W2 & W3 & W4 & W5).
  unfold parse_float.
  rewrite parse_sign_render by (rewrite Hbody; split; assumption).
  rewrite Hbody, W1, W2, W3. rewrite <- Hbody. unfold body. simpl orb. cbv iota.
  assert (Hs1 : stops_digits (render_frac fr ++ render_exp ex ++ [c]) = true).
  { destruct fr as [f|]; [reflexivity|]. destruct ex as [[[[] es] eds]|]; [reflexivity|reflexivity|].
    exact Hstop. }
  assert (Hs2 : stops_digits (render_exp ex ++ [c]) = true).
  { destruct ex as [[[[] es] eds]|]; [reflexivity|reflexivity|exact Hstop]. }
  rewrite (digitpart_app _ _ Hip Hs1). cbv beta iota.
  match goal with
  | |- (let '(_, _) := ?X in _) = _ =>
      assert (Hfp : X = (match fr with Some ds => ds | None => [] end, render_exp ex ++ [c]))
  end.
  { destruct fr as [f|]; simpl.
    - apply digitpart_app; assumption.
    - destruct ex as [[[[] es] eds]|]; try reflexivity. simpl. rewrite Cp. reflexivity. }
  rewrite Hfp. clear Hfp. cbv beta iota.
  set (fp := match fr with Some ds => ds | None => [] end) in *.
  destruct (ip ++ fp) as [|m0 ms] eqn:Hm; [reflexivity|].
  destruct ex as [[[cap es] eds]|]; simpl.
  - apply andb_true_iff in Hex as [Hd He].
    assert (Hor : forall A (x y : A),
               (if Ascii.eqb (if cap then "E" else "e") "e" || Ascii.eqb (if cap then "E" else "e") "E"
                then x else y) = x)
      by (intros; destruct cap; reflexivity).
    rewrite Hor. clear Hor.
    destruct eds as [|e0 eds]; [discriminate He|].
    rewrite <- app_assoc.
    rewrite parse_sign_render.
    2:{ simpl in Hd. apply andb_true_iff in Hd as [Hd _].
        destruct (digit_char e0 Hd) as (_ & _ & _ & _ & _ & _ & Hm' & Hp' & _). split; assumption. }
    rewrite (@digitpart_app (e0 :: eds) [c] Hd Hstop). reflexivity.
  - rewrite Ce, CE. reflexivity.
Qed.

(** X8. A decimal literal followed by a suffix of C ([f], [F], [l], [L]),
    as in [1.0f], is no number for [float]: a row that holds it raises the
    malformed literal error with that piece. *)
Theorem c_suffix_is_malformed (d : decimal) (c : ascii) :
  well_formed_decimal d = true -> c_float_suffix c = true ->
  py_float (strip (render_decimal d ++ [c]))
  = Raise (MalformedNumericLiteral (render_decimal d ++ [c])) /\
  parse_row (render_decimal d ++ [c])
  = Raise (MalformedNumericLiteral (render_decimal d ++ [c])).
Proof.
  intros H Hsfx. pose proof (render_decimal_plain d H) as Hp.
  destruct (suffix_char c Hsfx) as (_ & Cu & Cp & _ & _ & Cs & Cc & Ca).
  assert (Hplain : forallb (fun c => negb (is_space c) && negb (is_c_space c) && is_ascii c)
                     (render_decimal d ++ [c]) = true).
  { rewrite forallb_app, Hp. simpl. rewrite Cs, Cc, Ca. reflexivity. }
  assert (Hstrip : strip (render_decimal d ++ [c]) = render_decimal d ++ [c]).
  { unfold strip. apply strip_with_id. revert Hplain. apply forallb_weaken. intros x Hx.
    apply andb_true_iff in Hx as [Hx _]. apply andb_true_iff in Hx as [Hx _]. exact Hx. }
  assert (Hf : py_float (render_decimal d ++ [c])
               = Raise (MalformedNumericLiteral (render_decimal d ++ [c]))).
  { unfold py_float, to_ascii_spaces.
    replace (forallb is_ascii (render_decimal d ++ [c])) with true.
    2:{ symmetry. revert Hplain. apply forallb_weaken. intros x Hx.
        apply andb_true_iff in Hx as [_ Hx]. exact Hx. }
    rewrite (strip_with_id is_c_space).
    2:{ revert Hplain. apply forallb_weaken. intros x Hx.
        apply andb_true_iff in Hx as [Hx _]. apply andb_true_iff in Hx as [_ Hx]. exact Hx. }
    rewrite (parse_float_suffix d c H Hsfx). reflexivity. }
  rewrite Hstrip. split; [exact Hf|].
  unfold parse_row.
  assert (Hsplit : split "," (render_decimal d ++ [c]) = [render_decimal d ++ [c]]).
  { apply split_lacks. unfold lacks. rewrite forallb_app.
    apply andb_true_iff. split.
    - destruct d as [sg ip fr ex]. unfold well_formed_decimal, render_decimal, frac_digits in *.
      simpl in *. apply andb_true_iff in H as [H Hex]. apply andb_true_iff in H as [H _].
      apply andb_true_iff in H as [Hip Hfr].
      assert (Hd : forall ds, forallb is_digit ds = true ->
                   forallb (fun x => negb (Ascii.eqb x ",")) ds = true).
      { intros ds Hds. rewrite forallb_forall in *. intros x Hx. specialize (Hds x Hx).
        destruct x as [[] [] [] [] [] [] [] []]; try discriminate Hds; reflexivity. }
      rewrite !forallb_app, (Hd ip Hip).
      assert (Hs : forall s, forallb (fun x => negb (Ascii.eqb x ",")) (render_sign s) = true)
        by (intros [[]|]; reflexivity).
      rewrite Hs. simpl. apply andb_true_iff. split.
      + destruct fr as [f|]; [|reflexivity]. simpl. apply Hd. exact Hfr.
      + destruct ex as [[[cap es] eds]|]; [|reflexivity]. simpl.
        apply andb_true_iff in Hex as [He _]. rewrite forallb_app, Hs, (Hd eds He).
        destruct cap; reflexivity.
    - simpl. unfold c_float_suffix in Hsfx.
      destruct c as [[] [] [] [] [] [] [] []]; try discriminate Hsfx; reflexivity. }
  rewrite Hsplit. cbn [filter]. rewrite Hstrip.
  assert (Ht : truthy (render_decimal d ++ [c]) = true).
  { destruct (render_decimal d); reflexivity. }
  rewrite Ht. cbn [mapM]. rewrite Hstrip, Hf. reflexivity.
Qed.

Lemma c_suffix_is_malformed_witness :
  py_float (strip (s_ "-1.5e-3f")) = Raise (MalformedNumericLiteral (s_ "-1.5e-3f")) /\
  parse_row (s_ "-1.5e-3f") = Raise (MalformedNumericLiteral (s_ "-1.5e-3f")).
Proof. exact (c_suffix_is_malformed decimal_sample "f" eq_refl eq_refl). Defined.

(* ================================================================== *)
(** ** The writer, cell by cell *)

Lemma for_each_ext {S A : Type} (l : list A) (f g : A -> SE S unit) :
  (forall x, In x l -> forall s, f x s = g x s) ->
  forall s, for_each l f s = for_each l g s.
Proof.
  induction l as [|x l IH]; intros H s; [reflexivity|].
  cbn [for_each]. unfold bindS. rewrite (H x (or_introl eq_refl)).
  destruct (g x s) as [[[]|e] s']; [|reflexivity].
  apply IH. intros y Hy. apply H. right. exact Hy.
Qed.

Lemma for_each_app {S A : Type} (l1 l2 : list A) (f : A -> SE S unit) (s : S) :
  for_each (l1 ++ l2) f s = bindS (for_each l1 f) (fun _ => for_each l2 f) s.
Proof.
  revert s. induction l1 as [|x l1 IH]; intros s.
  - reflexivity.
  - cbn [app for_each]. unfold bindS.
    destruct (f x s) as [[[]|e] s']; [|reflexivity].
    rewrite IH. reflexivity.
Qed.

Lemma for_each_map {S A B : Type} (h : A -> B) (l : list A) (f : B -> SE S unit) (s : S) :
  for_each (map h l) f s = for_each l (fun x => f (h x)) s.
Proof.
  revert s. induction l as [|x l IH]; intros s; [reflexivity|].
  cbn [map for_each]. unfold bindS. destruct (f (h x) s) as [[[]|e] s']; [apply IH|reflexivity].
Qed.

Lemma for_each_flat_map {S A B : Type} (h : A -> list B) (l : list A) (f : B -> SE S unit) (s : S) :
  for_each (flat_map h l) f s = for_each l (fun x => for_each (h x) f) s.
Proof.
  revert s. induction l as [|x l IH]; intros s; [reflexivity|].
  cbn [flat_map for_each]. rewrite for_each_app. unfold bindS.
  destruct (for_each (h x) f s) as [[[]|e] s']; [apply IH|reflexivity].
Qed.

(** The two loops of the writer as one loop over the cells. *)
Lemma write_matrix_cells (m : matrix) (rows cols : nat) (written : list byte) :
  write_matrix m rows cols written
  = for_each (cells rows cols)
      (fun rc => bindS (lift (pack_cell m rc)) (fun b => file_write b)) written.
Proof.
  unfold write_matrix, cells. rewrite for_each_flat_map.
  apply for_each_ext. intros r _ s. rewrite for_each_map. reflexivity.
Qed.

Lemma write_cells_ok (f : nat * nat -> result (list byte)) (l : list (nat * nat)) :
  forall (bs : list (list byte)) (written : list byte),
    mapM f l = Ok bs ->
    for_each l (fun rc => bindS (lift (f rc)) (fun b => file_write b)) written
    = (Ok tt, written ++ concat bs).
Proof.
  induction l as [|rc l IH]; intros bs written H; cbn [mapM] in H.
  - injection H as <-. simpl. rewrite app_nil_r. reflexivity.
  - destruct (f rc) as [b|e] eqn:Hb; [|discriminate]. cbn [bind] in H.
    destruct (mapM f l) as [bs'|e] eqn:Hbs; [|discriminate]. injection H as <-.
    cbn [for_each]. unfold bindS at 1. unfold bindS at 1. unfold lift at 1. rewrite Hb.
    unfold file_write at 1. rewrite (IH bs' _ eq_refl).
    cbn [concat]. rewrite app_assoc. reflexivity.
Qed.

Lemma write_cells_raise (f : nat * nat -> result (list byte)) (l : list (nat * nat)) :
  forall (bs : list (list byte)) (rc : nat * nat) (rest : list (nat * nat)) (e : exn)
         (written : list byte),
    mapM f l = Ok bs -> f rc = Raise e ->
    for_each (l ++ rc :: rest) (fun rc => bindS (lift (f rc)) (fun b => file_write b)) written
    = (Raise e, written ++ concat bs).
Proof.
  intros bs rc rest e written H He. rewrite for_each_app. unfold bindS at 1.
  rewrite (write_cells_ok f l bs written H). cbn [for_each].
  unfold bindS at 1. unfold bindS at 1. unfold lift at 1. rewrite He. reflexivity.
Qed.

Lemma write_cells_inv (f : nat * nat -> result (list byte)) (l : list (nat * nat)) :
  forall (written out : list byte),
    for_each l (fun rc => bindS (lift (f rc)) (fun b => file_write b)) written = (Ok tt, out) ->
    exists bs, mapM f l = Ok bs /\ out = written ++ concat bs.
Proof.
  induction l as [|rc l IH]; intros written out H.
  - cbn in H. injection H as <-. exists []. split; [reflexivity|]. simpl. rewrite app_nil_r. reflexivity.
  - cbn [for_each] in H. unfold bindS at 1 in H. unfold bindS at 1 in H. unfold lift at 1 in H.
    destruct (f rc) as [b|e] eqn:Hb; [|discriminate].
    unfold file_write at 1 in H. apply IH in H as (bs & Hbs & ->).
    exists (b :: bs). cbn [mapM]. rewrite Hb, Hbs. split; [reflexivity|].
    cbn [concat]. rewrite app_assoc. reflexivity.
Qed.

Lemma pack_cell_bytes (m : matrix) (rc : nat * nat) (b : list byte) :
  pack_cell m rc = Ok b -> length b = 4.
Proof.
  unfold pack_cell. destruct (getitem2 m (fst rc) (snd rc)) as [x|e]; [|discriminate].
  cbn [bind]. unfold struct_pack_f. destruct (_ && _); [discriminate|].
  intros H; injection H as <-. reflexivity.
Qed.

Lemma cells_length (rows cols : nat) : length (cells rows cols) = rows * cols.
Proof.
  unfold cells.
  assert (H : forall l : list nat,
             length (flat_map (fun r => map (fun c => (r, c)) (range cols)) l)
             = length l * cols).
  { induction l as [|r l IH]; [reflexivity|].
    cbn [flat_map length]. rewrite length_app, length_map, IH. unfold range.
    rewrite length_seq. reflexivity. }
  rewrite H. unfold range. rewrite length_seq. reflexivity.
Qed.

Lemma concat_length_4 (bs : list (list byte)) :
  Forall (fun b => length b = 4) bs -> length (concat bs) = length bs * 4.
Proof.
  induction 1 as [|b bs Hb _ IH]; [reflexivity|].
  cbn [concat length]. rewrite length_app, Hb, IH. lia.
Qed.

Lemma in_cells (rows cols r c : nat) :
  In (r, c) (cells rows cols) <-> r < rows /\ c < cols.
Proof.
  unfold cells. rewrite in_flat_map. split.
  - intros (r' & Hr & Hc). apply in_map_iff in Hc as (c' & E & Hc).
    injection E as -> ->. apply in_range in Hr. apply in_range in Hc. split; assumption.
  - intros [Hr Hc]. exists r. split; [apply in_range; exact Hr|].
    apply in_map_iff. exists c. split; [reflexivity|apply in_range; exact Hc].
Qed.

Lemma getitem2_block (m : matrix) (rows cols r c : nat) :
  r < rows -> c < cols -> getitem2 (block m rows cols) r c = getitem2 m r c.
Proof.
  intros Hr Hc. unfold getitem2, getitem, block.
  rewrite nth_error_map, nth_error_firstn.
  apply Nat.ltb_lt in Hr. rewrite Hr.
  destruct (nth_error m r) as [row|]; [|reflexivity].
  cbn [option_map bind]. rewrite nth_error_firstn.
  apply Nat.ltb_lt in Hc. rewrite Hc. reflexivity.
Qed.

Lemma write_matrix_block (m : matrix) (rows cols : nat) (written : list byte) :
  write_matrix m rows cols written = write_matrix (block m rows cols) rows cols written.
Proof.
  rewrite !write_matrix_cells. apply for_each_ext.
  intros [r c] Hin s. apply in_cells in Hin as [Hr Hc].
  unfold pack_cell. cbn [fst snd]. rewrite (getitem2_block m rows cols r c Hr Hc). reflexivity.
Qed.

Lemma block_shape (m : matrix) (rows cols : nat) :
  rows <= length m ->
  (forall row, In row (firstn rows m) -> cols <= length row) ->
  has_shape (block m rows cols) rows cols = true.
Proof.
  intros Hr Hc. unfold has_shape, block. apply andb_true_iff. split.
  - apply Nat.eqb_eq. rewrite length_map, length_firstn. lia.
  - apply forallb_forall. intros row Hrow. apply in_map_iff in Hrow as (row' & <- & Hin).
    apply Nat.eqb_eq. rewrite length_firstn. specialize (Hc row' Hin). lia.
Qed.

Lemma struct_pack_f_inv (x : float) (b : list byte) :
  struct_pack_f x = Ok b -> packable x = true /\ b = single_bytes x.
Proof.
  unfold struct_pack_f, packable, single_bytes.
  destruct (is_inf (to_single x) && negb (is_inf x)); [discriminate|].
  intros H; injection H as <-. split; reflexivity.
Qed.

Lemma mapM_In_ok {A B : Type} (f : A -> result B) (l : list A) (ys : list B) (x : A) :
  mapM f l = Ok ys -> In x l -> exists y, f x = Ok y.
Proof.
  intros H Hin. apply mapM_Forall2 in H.
  destruct (Forall2_In_left _ l ys x H Hin) as (y & _ & Hy). exists y. exact Hy.
Qed.

(** On a matrix of the declared shape the cells pack exactly when every
    value packs. *)
Lemma shaped_cells_packable (m : matrix) (rows cols : nat) (bs : list (list byte)) :
  has_shape m rows cols = true ->
  mapM (pack_cell m) (cells rows cols) = Ok bs ->
  forallb (forallb packable) m = true.
Proof.
  intros Hs H. destruct (has_shape_parts m rows cols Hs) as [Hl Hc].
  apply forallb_forall. intros row Hrow. apply forallb_forall. intros x Hx.
  apply In_nth_error in Hrow as [r Hr]. apply In_nth_error in Hx as [c Hcx].
  assert (Hrr : r < rows). { rewrite <- Hl. apply nth_error_Some. congruence. }
  assert (Hcc : c < cols).
  { rewrite <- (Hc row (nth_error_In _ _ Hr)). apply nth_error_Some. congruence. }
  destruct (mapM_In_ok _ _ _ (r, c) H (proj2 (in_cells rows cols r c) (conj Hrr Hcc)))
    as [b Hb].
  unfold pack_cell, getitem2, getitem in Hb. cbn [fst snd] in Hb.
  rewrite Hr in Hb. cbn [bind] in Hb. rewrite Hcx in Hb. cbn [bind] in Hb.
  apply struct_pack_f_inv in Hb as [Hp _]. exact Hp.
Qed.

Lemma save_cells_ok (m : matrix) (path : str) (rows cols : nat) (w : world)
    (bs : list (list byte)) :
  writable w path = true ->
  mapM (pack_cell m) (cells rows cols) = Ok bs ->
  save_matrix_binary m path rows cols w
  = (Ok tt, {| readable := readable w; writable := writable w;
               files := (path, concat bs) :: files w;
               stdout := stdout w ++ [OutSaved rows cols path (rows * cols * 4)] |}).
Proof.
  intros Hw H. unfold save_matrix_binary. rewrite Hw, write_matrix_cells.
  rewrite (write_cells_ok _ _ bs [] H). reflexivity.
Qed.

Lemma save_cells_raise (m : matrix) (path : str) (rows cols : nat) (w : world)
    (visited : list (nat * nat)) (rc : nat * nat) (rest : list (nat * nat))
    (bs : list (list byte)) (e : exn) :
  writable w path = true ->
  cells rows cols = visited ++ rc :: rest ->
  mapM (pack_cell m) visited = Ok bs ->
  pack_cell m rc = Raise e ->
  save_matrix_binary m path rows cols w
  = (Raise e, {| readable := readable w; writable := writable w;
                 files := (path, concat bs) :: files w; stdout := stdout w |}).
Proof.
  intros Hw Hc H He. unfold save_matrix_binary. rewrite Hw, write_matrix_cells, Hc.
  rewrite (write_cells_raise _ _ bs rc rest e [] H He). reflexivity.
Qed.

Lemma save_inv (m : matrix) (path : str) (rows cols : nat) (w w' : world) :
  save_matrix_binary m path rows cols w = (Ok tt, w') ->
  writable w path = true /\
  exists bs, mapM (pack_cell m) (cells rows cols) = Ok bs /\
    w' = {| readable := readable w; writable := writable w;
            files := (path, concat bs) :: files w;
            stdout := stdout w ++ [OutSaved rows cols path (rows * cols * 4)] |}.
Proof.
  unfold save_matrix_binary. destruct (writable w path); [|discriminate].
  rewrite write_matrix_cells.
  destruct (for_each _ _ _) as [[[]|e] out] eqn:Hf; [|discriminate].
  apply write_cells_inv in Hf as (bs & Hbs & ->).
  unfold print. intros H; injection H as <-. split; [reflexivity|].
  exists bs. split; [exact Hbs|reflexivity].
Qed.

Lemma cells_bytes_length (m : matrix) (rows cols : nat) (bs : list (list byte)) :
  mapM (pack_cell m) (cells rows cols) = Ok bs -> length (concat bs) = rows * cols * 4.
Proof.
  intros H. rewrite concat_length_4.
  - rewrite (mapM_length _ _ _ H), cells_length. reflexivity.
  - apply mapM_Forall2 in H. clear - H. induction H as [|rc b l bs Hb _ IH]; constructor.
    + apply (pack_cell_bytes m rc b Hb).
    + exact IH.
Qed.

(** X9. The writer visits the cells row by row and stops at the first one
    that fails ([IndexError] for a missing entry, [OverflowError] for a value
    too large): the error is raised, the file keeps the four bytes of each
    cell visited before it, and the line [Saved ...] is not printed. *)
Theorem save_stops_at_first_failure (m : matrix) (path : str) (rows cols : nat) (w : world)
    (visited : list (nat * nat)) (rc : nat * nat) (rest : list (nat * nat))
    (bs : list (list byte)) (e : exn) :
  writable w path = true ->
  cells rows cols = visited ++ rc :: rest ->
  mapM (pack_cell m) visited = Ok bs ->
  pack_cell m rc = Raise e ->
  fst (save_matrix_binary m path rows cols w) = Raise e /\
  lookup_file (files (snd (save_matrix_binary m path rows cols w))) path = Some (concat bs) /\
  length (concat bs) = length visited * 4 /\
  stdout (snd (save_matrix_binary m path rows cols w)) = stdout w.
Proof.
  intros Hw Hc H He. rewrite (save_cells_raise m path rows cols w visited rc rest bs e Hw Hc H He).
  cbn [fst snd files stdout lookup_file]. rewrite str_eqb_refl.
  split; [reflexivity|]. split; [reflexivity|]. split; [|reflexivity].
  rewrite concat_length_4.
  - rewrite (mapM_length _ _ _ H). reflexivity.
  - apply mapM_Forall2 in H. clear - H. induction H as [|c b l bs' Hb _ IH]; constructor.
    + apply (pack_cell_bytes m c b Hb).
    + exact IH.
Qed.

Lemma save_stops_at_first_failure_witness :
  fst (save_matrix_binary [[f1_0; f2_0]; [f3_0]] (s_ "out.bin") 2 2 blank_world) = Raise IndexError /\
  lookup_file (files (snd (save_matrix_binary [[f1_0; f2_0]; [f3_0]] (s_ "out.bin") 2 2 blank_world)))
              (s_ "out.bin")
  = Some (single_bytes f1_0 ++ single_bytes f2_0 ++ single_bytes f3_0) /\
  stdout (snd (save_matrix_binary [[f1_0; f2_0]; [f3_0]] (s_ "out.bin") 2 2 blank_world)) = [].
Proof.
  pose proof (save_stops_at_first_failure [[f1_0; f2_0]; [f3_0]] (s_ "out.bin") 2 2 blank_world
                [(0, 0); (0, 1); (1, 0)] (1, 1) []
                [single_bytes f1_0; single_bytes f2_0; single_bytes f3_0] IndexError
                eq_refl eq_refl eq_refl eq_refl) as (H1 & H2 & _ & H4).
  split; [exact H1|]. split; [|exact H4].
  rewrite H2. reflexivity.
Defined.

(** X10. Whatever the matrix, when the writer returns normally the
    destination could be opened, every cell of the declared size was packed,
    the file holds their bytes in row-major order, [rows * cols * 4] bytes
    in all, and the line printed reports that size. *)
Theorem save_returns_full_size (m : matrix) (path : str) (rows cols : nat) (w : world) :
  fst (save_matrix_binary m path rows cols w) = Ok tt ->
  writable w path = true /\
  exists bs,
    mapM (pack_cell m) (cells rows cols) = Ok bs /\
    lookup_file (files (snd (save_matrix_binary m path rows cols w))) path = Some (concat bs) /\
    length (concat bs) = rows * cols * 4 /\
    stdout (snd (save_matrix_binary m path rows cols w))
    = stdout w ++ [OutSaved rows cols path (rows * cols * 4)].
Proof.
  destruct (save_matrix_binary m path rows cols w) as [r w'] eqn:Hs. cbn [fst snd]. intros ->.
  apply save_inv in Hs as (Hw & bs & Hbs & ->). split; [exact Hw|].
  exists bs. cbn [files stdout lookup_file]. rewrite str_eqb_refl.
  split; [exact Hbs|]. split; [reflexivity|]. split; [|reflexivity].
  apply (cells_bytes_length m rows cols bs Hbs).
Qed.

Lemma save_returns_full_size_witness :
  exists bs,
    mapM (pack_cell [[f1_0; f2_0]; [f3_0; f4_0]]) (cells 2 2) = Ok bs /\
    length (concat bs) = 16.
Proof.
  destruct (save_returns_full_size [[f1_0; f2_0]; [f3_0; f4_0]] (s_ "out.bin") 2 2 blank_world
              eq_refl) as (_ & bs & H1 & _ & H3 & _).
  exists bs. split; [exact H1|exact H3].
Defined.

(** X11. The writer reads only the first [rows] rows and the first [cols]
    entries of each: it behaves on a matrix as on its top left block, and
    when the matrix is at least that large and the block packs, the file
    holds the bytes of the block. *)
Theorem save_reads_declared_block (m : matrix) (path : str) (rows cols : nat) (w : world) :
  save_matrix_binary m path rows cols w
  = save_matrix_binary (block m rows cols) path rows cols w /\
  (writable w path = true ->
   rows <= length m ->
   (forall row, In row (firstn rows m) -> cols <= length row) ->
   forallb (forallb packable) (block m rows cols) = true ->
   fst (save_matrix_binary m path rows cols w) = Ok tt /\
   lookup_file (files (snd (save_matrix_binary m path rows cols w))) path
   = Some (matrix_bytes (block m rows cols))).
Proof.
  assert (E : save_matrix_binary m path rows cols w
              = save_matrix_binary (block m rows cols) path rows cols w).
  { unfold save_matrix_binary. rewrite (write_matrix_block m rows cols []). reflexivity. }
  split; [exact E|].
  intros Hw Hr Hc Hp. rewrite E.
  rewrite (save_matrix_binary_ok (block m rows cols) path rows cols w
             (block_shape m rows cols Hr Hc) Hw Hp).
  cbn [fst snd files lookup_file]. rewrite str_eqb_refl. split; reflexivity.
Qed.

Lemma save_reads_declared_block_witness :
  fst (save_matrix_binary [[f1_0; f2_0; f3_0]; [f3_0; f4_0; f1e39]; [f1e39]] (s_ "out.bin") 2 2
         blank_world) = Ok tt /\
  lookup_file (files (snd (save_matrix_binary [[f1_0; f2_0; f3_0]; [f3_0; f4_0; f1e39]; [f1e39]]
                             (s_ "out.bin") 2 2 blank_world))) (s_ "out.bin")
  = Some (matrix_bytes [[f1_0; f2_0]; [f3_0; f4_0]]).
Proof.
  apply (proj2 (save_reads_declared_block [[f1_0; f2_0; f3_0]; [f3_0; f4_0; f1e39]; [f1e39]]
                  (s_ "out.bin") 2 2 blank_world)).
  - reflexivity.
  - simpl. lia.
  - intros row [<-|[<-|[]]]; simpl; lia.
  - reflexivity.
Defined.

(** X12. With a declared row or column count of 0 the writer never looks
    at the matrix: it leaves an empty file and reports 0 bytes. *)
Theorem save_zero_size (m : matrix) (path : str) (rows cols : nat) (w : world) :
  rows = 0 \/ cols = 0 ->
  writable w path = true ->
  fst (save_matrix_binary m path rows cols w) = Ok tt /\
  lookup_file (files (snd (save_matrix_binary m path rows cols w))) path = Some [] /\
  stdout (snd (save_matrix_binary m path rows cols w)) = stdout w ++ [OutSaved rows cols path 0].
Proof.
  intros Hz Hw.
  assert (Hc : cells rows cols = []).
  { pose proof (cells_length rows cols) as Hl.
    replace (rows * cols) with 0 in Hl by (destruct Hz; subst; lia).
    destruct (cells rows cols); [reflexivity|discriminate]. }
  assert (Hn : rows * cols * 4 = 0) by (destruct Hz; subst; lia).
  rewrite (save_cells_ok m path rows cols w [] Hw) by (rewrite Hc; reflexivity).
  cbn [fst snd files stdout lookup_file concat]. rewrite str_eqb_refl, Hn.
  repeat split.
Qed.

Lemma save_zero_size_witness :
  fst (save_matrix_binary [] (s_ "out.bin") 47 0 blank_world) = Ok tt /\
  lookup_file (files (snd (save_matrix_binary [] (s_ "out.bin") 47 0 blank_world))) (s_ "out.bin")
  = Some [].
Proof.
  destruct (save_zero_size [] (s_ "out.bin") 47 0 blank_world (or_intror eq_refl) eq_refl)
    as (H1 & H2 & _).
  split; [exact H1|exact H2].
Defined.

(* ================================================================== *)
(** ** The generator whenever it returns *)

Lemma ortho_y_factor_size (N : nat) (oy : float) : ortho_y_factor N = Ok oy -> 2 <= N.
Proof.
  destruct N as [|[|N]]; intros H;
    [vm_compute in H; discriminate|vm_compute in H; discriminate|lia].
Qed.

Lemma mapM_inv {A B : Type} (f : A -> result B) (g : A -> B) (l : list A) (ys : list B) :
  (forall x y, In x l -> f x = Ok y -> y = g x) ->
  mapM f l = Ok ys -> ys = map g l.
Proof.
  revert ys. induction l as [|x l IH]; intros ys Hf H; cbn [mapM] in H.
  - injection H as <-. reflexivity.
  - destruct (f x) as [y|e] eqn:Hy; [|discriminate]. cbn [bind] in H.
    destruct (mapM f l) as [ys'|e] eqn:Hys; [|discriminate]. injection H as <-.
    cbn [map]. rewrite (Hf x y (or_introl eq_refl) Hy).
    rewrite (IH ys' (fun x' y' Hin => Hf x' y' (or_intror Hin)) eq_refl). reflexivity.
Qed.

Lemma float_of_int_inv (z : Z) (r : float) : float_of_int z = Ok r -> r = round_int z.
Proof.
  unfold float_of_int. destruct (is_inf (round_int z)); [discriminate|].
  intros H; injection H as <-. reflexivity.
Qed.

Lemma truediv_inv (x y q : float) : truediv x y = Ok q -> q = fdiv x y /\ is_zero y = false.
Proof.
  unfold truediv. destruct (is_zero y); [discriminate|].
  intros H; injection H as <-. split; reflexivity.
Qed.

Lemma math_1_inv (func : float -> float) (x r : float) : math_1 func x = Ok r -> r = func x.
Proof.
  unfold math_1. destruct (_ && _); [discriminate|]. destruct (_ && _); [discriminate|].
  intros H; injection H as <-. reflexivity.
Qed.

Lemma float_pow2_inv (rt : runtime) (x v : float) :
  float_pow2 rt x = Ok v -> v = float_pow2_value rt x.
Proof.
  unfold float_pow2. destruct (_ && _); [discriminate|]. destruct (_ && _); [discriminate|].
  intros H; injection H as <-. reflexivity.
Qed.

Lemma cos_arg_inv (N k n : nat) (a : float) : cos_arg N k n = Ok a -> a = spec_angle N k n.
Proof.
  unfold cos_arg, spec_angle.
  destruct (float_of_int (Z.of_nat k)) as [fk|e] eqn:H1; [|discriminate].
  destruct (float_of_int (2 * Z.of_nat n + 1)) as [fn|e] eqn:H2; [|discriminate].
  destruct (float_of_int (2 * Z.of_nat N)) as [fN|e] eqn:H3; [|discriminate].
  cbn [bind]. intros H. apply truediv_inv in H as [-> _].
  rewrite (float_of_int_inv _ _ H1), (float_of_int_inv _ _ H2), (float_of_int_inv _ _ H3).
  reflexivity.
Qed.

Lemma build_F_inv (rt : runtime) (N : nat) (F : matrix) :
  build_F rt N spec_ortho_x (spec_ortho_y N) = Ok F -> F = spec_F_matrix rt N.
Proof.
  unfold build_F, spec_F_matrix. apply mapM_inv. intros k row _.
  apply mapM_inv. intros n y _.
  destruct (cos_arg N k n) as [a|e] eqn:Ha; [|discriminate]. cbn [bind].
  destruct (math_cos rt a) as [c|e] eqn:Hc; [|discriminate]. cbn [bind].
  apply cos_arg_inv in Ha as ->. apply math_1_inv in Hc as ->.
  unfold spec_F. destruct (k =? 0); intros H; injection H as <-; reflexivity.
Qed.

Lemma build_norms_sq_inv (rt : runtime) (N : nat) (ns : list float) :
  build_norms_sq rt N (spec_F_matrix rt N) = Ok ns -> ns = map (spec_norm rt N) (range N).
Proof.
  unfold build_norms_sq. apply mapM_inv. intros k y Hk. apply in_range in Hk.
  destruct (mapM _ (range N)) as [terms|e] eqn:Ht; [|discriminate]. cbn [bind].
  intros H; injection H as <-. unfold spec_norm. f_equal.
  revert Ht. apply mapM_inv. intros n v Hn. apply in_range in Hn.
  unfold spec_F_matrix. rewrite (getitem2_map_range (spec_F rt N) N N k n Hk Hn). cbn [bind].
  apply float_pow2_inv.
Qed.

Lemma build_IDCT_inv (rt : runtime) (N : nat) (G : matrix) :
  1 <= N ->
  build_IDCT N (spec_F_matrix rt N) (map (spec_norm rt N) (range N)) = Ok G ->
  G = spec_G_matrix rt N /\ forall k, k < N -> is_zero (spec_norm rt N k) = false.
Proof.
  intros HN H. split.
  - revert H. unfold build_IDCT, spec_G_matrix. apply mapM_inv. intros n row Hn.
    apply in_range in Hn. apply mapM_inv. intros k y Hk. apply in_range in Hk.
    unfold spec_F_matrix. rewrite (getitem2_map_range (spec_F rt N) N N k n Hk Hn). cbn [bind].
    rewrite (getitem_map_range (spec_norm rt N) N k Hk). cbn [bind].
    intros Hq. apply truediv_inv in Hq as [-> _]. reflexivity.
  - intros k Hk. unfold build_IDCT in H.
    destruct (mapM_In_ok _ _ _ 0 H (proj2 (in_range N 0) HN)) as [row Hrow].
    destruct (mapM_In_ok _ _ _ k Hrow (proj2 (in_range N k) Hk)) as [q Hq].
    unfold spec_F_matrix in Hq.
    rewrite (getitem2_map_range (spec_F rt N) N N k 0 Hk HN) in Hq. cbn [bind] in Hq.
    rewrite (getitem_map_range (spec_norm rt N) N k Hk) in Hq. cbn [bind] in Hq.
    apply truediv_inv in Hq as [_ Hz]. exact Hz.
Qed.

(** The two outcomes of the generator: it raises before it prints, or it
    returns the matrix of the formulas after the verification line. *)
Lemma generate_cases (rt : runtime) (N : nat) :
  (exists e, forall w, generate_idct_matrix rt N w = (Raise e, w)) \/
  (2 <= N /\ (forall k, k < N -> is_zero (spec_norm rt N k) = false) /\
   forall w, generate_idct_matrix rt N w
             = (Ok (spec_G_matrix rt N), add_output w (verifier_output rt N))).
Proof.
  unfold generate_idct_matrix, bindS, lift.
  change (math_sqrt f2_0) with (Ok spec_ortho_x).
  destruct (ortho_y_factor N) as [oy|e] eqn:Hoy; [|left; exists e; reflexivity].
  pose proof (ortho_y_factor_size N oy Hoy) as HN.
  assert (Hoy' : oy = spec_ortho_y N).
  { pose proof (ortho_y_factor_ok N) as H. rewrite Hoy in H. specialize (H eq_refl).
    injection H as ->. reflexivity. }
  subst oy.
  destruct (build_F rt N spec_ortho_x (spec_ortho_y N)) as [F|e] eqn:HF;
    [|left; exists e; reflexivity].
  apply build_F_inv in HF as ->.
  destruct (build_norms_sq rt N (spec_F_matrix rt N)) as [ns|e] eqn:Hns;
    [|left; exists e; reflexivity].
  apply build_norms_sq_inv in Hns as ->.
  destruct (build_IDCT N (spec_F_matrix rt N) (map (spec_norm rt N) (range N))) as [G|e] eqn:HG;
    [|left; exists e; reflexivity].
  apply build_IDCT_inv in HG as [-> Hz]; [|lia].
  rewrite (spot_check_ok rt N HN).
  right. split; [exact HN|]. split; [exact Hz|].
  intros w. unfold print, ret, add_output, verifier_output.
  cbn [stdout readable writable files].
  destruct (flt f1em6 (spot_error rt N)); cbn [stdout readable writable files];
    rewrite <- ?app_assoc; reflexivity.
Qed.

(** X13. For every size and every runtime: when the generator returns, the
    size is at least 2, no row norm is zero, the matrix is the one of the
    formulas, [G[n][k] = F[k][n] / norm(k)], and the lines printed are the
    verification line and, if the error exceeds [1e-6], the warning. *)
Theorem generator_result_is_formula (rt : runtime) (N : nat) (w : world) (G : matrix) :
  fst (generate_idct_matrix rt N w) = Ok G ->
  2 <= N /\
  G = spec_G_matrix rt N /\
  (forall k, k < N -> is_zero (spec_norm rt N k) = false) /\
  (forall n k, n < N -> k < N ->
     getitem2 G n k = Ok (fdiv (spec_F rt N k n) (spec_norm rt N k))) /\
  stdout (snd (generate_idct_matrix rt N w)) = stdout w ++ verifier_output rt N.
Proof.
  destruct (generate_cases rt N) as [[e He]|(HN & Hz & HG)].
  - rewrite He. discriminate.
  - rewrite HG. cbn [fst snd]. intros H; injection H as <-.
    split; [exact HN|]. split; [reflexivity|]. split; [exact Hz|]. split; [|reflexivity].
    intros n k Hn Hk. unfold spec_G_matrix.
    apply (getitem2_map_range (fun a b => spec_G rt N a b) N N n k Hn Hk).
Qed.

Lemma generator_result_is_formula_witness :
  2 <= 2 /\
  (forall k, k < 2 -> is_zero (spec_norm coarse_runtime 2 k) = false) /\
  stdout (snd (generate_idct_matrix coarse_runtime 2 blank_world))
  = [] ++ verifier_output coarse_runtime 2.
Proof.
  assert (H : fst (generate_idct_matrix coarse_runtime 2 blank_world)
              = Ok (spec_G_matrix coarse_runtime 2)) by (vm_compute; reflexivity).
  destruct (generator_result_is_formula coarse_runtime 2 blank_world _ H)
    as (H1 & _ & H3 & _ & H5).
  split; [exact H1|]. split; [exact H3|exact H5].
Defined.

Lemma sizes_positive :
  forallb (fun z => match round_int (Z.of_nat z) with
                    | S754_finite false _ _ => true
                    | _ => false
                    end) (seq 1 (2 * max_size + 1)) = true.
Proof. vm_compute. reflexivity. Qed.

Lemma size_int_positive (z : nat) :
  1 <= z <= 2 * max_size + 1 -> exists m e, round_int (Z.of_nat z) = S754_finite false m e.
Proof.
  intros H. pose proof sizes_positive as C. rewrite forallb_forall in C.
  specialize (C z). destruct (round_int (Z.of_nat z)) as [| | |[] m e];
    try (exfalso; assert (false = true) by (apply C, in_seq; unfold max_size in *; lia);
         discriminate).
  exists m, e. reflexivity.
Qed.

(** For [k = 0] the argument of the cosine is [0.0], whatever [n]. *)
Lemma spec_angle_zero (N n : nat) :
  1 <= N <= max_size -> n < N -> spec_angle N 0 n = S754_zero false.
Proof.
  intros HN Hn. unfold spec_angle.
  replace (fmul math_pi (round_int (Z.of_nat 0))) with (S754_zero false)
    by (vm_compute; reflexivity).
  replace (2 * Z.of_nat n + 1)%Z with (Z.of_nat (2 * n + 1)) by lia.
  replace (2 * Z.of_nat N)%Z with (Z.of_nat (2 * N)) by lia.
  destruct (size_int_positive (2 * n + 1)) as (m1 & e1 & ->); [lia|].
  destruct (size_int_positive (2 * N)) as (m2 & e2 & ->); [lia|].
  reflexivity.
Qed.

(** X14. For [k = 0] the angle is [0.0] whatever [n], so the first column
    of the matrix returned is constant: every [G[n][0]] is
    [ortho_y * cos(0.0) / norm(0)]. *)
Theorem first_column_is_constant (rt : runtime) (N : nat) (w : world) :
  2 <= N <= max_size -> runtime_defined rt N = true ->
  exists G, fst (generate_idct_matrix rt N w) = Ok G /\
    forall n, n < N ->
      getitem2 G n 0
      = Ok (fdiv (fmul (spec_ortho_y N) (libm_cos rt (S754_zero false))) (spec_norm rt N 0)).
Proof.
  intros HN HR. exists (spec_G_matrix rt N). rewrite (generate_ok rt N w HN HR).
  split; [reflexivity|]. intros n Hn. unfold spec_G_matrix.
  rewrite (getitem2_map_range (fun a b => spec_G rt N a b) N N n 0 Hn) by lia.
  unfold spec_G, spec_F. cbn [Nat.eqb].
  rewrite (spec_angle_zero N n) by lia. reflexivity.
Qed.

Lemma first_column_is_constant_witness :
  exists G, fst (generate_idct_matrix sample_runtime 4 blank_world) = Ok G /\
    forall n, n < 4 ->
      getitem2 G n 0
      = Ok (fdiv (fmul (spec_ortho_y 4) (libm_cos sample_runtime (S754_zero false)))
                 (spec_norm sample_runtime 4 0)).
Proof.
  apply (first_column_is_constant sample_runtime 4 blank_world).
  - unfold max_size. lia.
  - vm_compute. reflexivity.
Defined.

(* ================================================================== *)
(** ** The steps of a run *)

Lemma add_output_app (w : world) (a b : list output) :
  add_output (add_output w a) b = add_output w (a ++ b).
Proof. unfold add_output. cbn. rewrite <- app_assoc. reflexivity. Qed.

Lemma print_add_output (o : output) (w : world) : print o w = (Ok tt, add_output w [o]).
Proof. reflexivity. Qed.

Lemma main_before_extract (rt : runtime) (R N : nat) (argv : list str) (w : world) :
  main rt R N argv w
  = match readable w (firmware_path argv) with
    | None => (Raise (OSError (firmware_path argv)),
               add_output w [OutText "=== Extracting PCA weight matrix ==="])
    | Some text =>
        match extract_pca_matrix_text R N text with
        | Raise e => (Raise e, add_output w [OutText "=== Extracting PCA weight matrix ==="])
        | Ok pca =>
            match getitem pca 0 with
            | Raise e => (Raise e, add_output w [OutText "=== Extracting PCA weight matrix ==="])
            | Ok row0 =>
                match generate_idct_matrix rt N (add_output w (extraction_output pca)) with
                | (Raise e, w') => (Raise e, w')
                | (Ok idct, w') =>
                    match getitem idct 0 with
                    | Raise e => (Raise e, w')
                    | Ok g0 =>
                        save_both R N pca idct
                          (add_output w' [OutShape "IDCT matrix" (length idct) (length g0);
                                          OutText "=== Saving matrices ==="])
                    end
                end
            end
        end
    end.
Proof.
  unfold main, bindS at 1. unfold print at 1. cbn beta iota.
  unfold bindS at 1. unfold extract_pca_matrix, bindS at 1, read_text, lift.
  cbn [readable].
  destruct (readable w (firmware_path argv)) as [text|]; [|reflexivity].
  destruct (extract_pca_matrix_text R N text) as [pca|e]; [|reflexivity].
  unfold bindS at 1. unfold bindS at 1.
  destruct (getitem pca 0) as [row0|e] eqn:H0; [|reflexivity].
  assert (Hn : nth 0 pca [] = row0).
  { unfold getitem in H0. destruct pca as [|r p]; [discriminate|]. cbn in H0.
    injection H0 as <-. reflexivity. }
  unfold print at 1. cbn beta iota.
  unfold bindS at 1. unfold bindS at 1. unfold print at 1. cbn beta iota.
  unfold bindS at 1. unfold bindS at 1. unfold print at 1. cbn beta iota.
  unfold bindS at 1. unfold print at 1. cbn beta iota.
  unfold bindS at 1.
  unfold extraction_output, add_output. cbn [readable writable files stdout]. rewrite Hn.
  repeat rewrite <- app_assoc. cbn [app].
  destruct (generate_idct_matrix rt N _) as [[idct|e] w']; [|reflexivity].
  unfold bindS at 1. unfold bindS at 1. cbn beta.
  destruct (getitem idct 0) as [g0|e]; [|reflexivity].
  unfold print at 1. cbn beta iota.
  unfold bindS at 1. unfold print at 1. cbn beta iota.
  unfold save_both. cbn [readable writable files stdout].
  repeat rewrite <- app_assoc. reflexivity.
Qed.

Lemma extract_first_row (R N : nat) (text : str) (pca : matrix) :
  extract_pca_matrix_text R N text = Ok pca -> 1 <= R ->
  getitem pca 0 = Ok (nth 0 pca []).
Proof.
  intros Hx HR. destruct (has_shape_parts pca R N (extract_shape R N text pca Hx)) as [Hl _].
  apply getitem_nth. lia.
Qed.

Lemma square_first_row (G : matrix) (N : nat) :
  2 <= N -> has_shape G N N = true ->
  getitem G 0 = Ok (nth 0 G []) /\ length G = N /\ length (nth 0 G []) = N.
Proof.
  intros HN Hs. destruct (has_shape_parts G N N Hs) as [Hl Hc]. split; [|split].
  - apply getitem_nth. lia.
  - exact Hl.
  - apply Hc, nth_In. lia.
Qed.

(** X15. The generator runs before any file is opened: when it raises
    after a successful extraction, the run ends with its error, no file has
    been written, and the lines printed are those of the extraction. *)
Theorem generator_failure_aborts_run (rt : runtime) (R N : nat) (argv : list str)
    (w : world) (text : str) (pca : matrix) (e : exn) :
  readable w (firmware_path argv) = Some text ->
  extract_pca_matrix_text R N text = Ok pca -> 1 <= R ->
  fst (generate_idct_matrix rt N w) = Raise e ->
  fst (main rt R N argv w) = Raise e /\
  files (snd (main rt R N argv w)) = files w /\
  stdout (snd (main rt R N argv w)) = stdout w ++ extraction_output pca.
Proof.
  intros Hr Hx HR Hg. rewrite main_before_extract, Hr, Hx, (extract_first_row R N text pca Hx HR).
  destruct (generate_cases rt N) as [[e' He]|(_ & _ & HG)].
  - rewrite He in Hg. cbn in Hg. injection Hg as ->. rewrite He. repeat split.
  - rewrite HG in Hg. discriminate.
Qed.

(** X16. With an expected row count of 0 an extraction that succeeds
    returns the empty matrix, and the run ends with the [IndexError] of
    [pca[0]] before any file is written. *)
Theorem empty_matrix_aborts_run (rt : runtime) (N : nat) (argv : list str)
    (w : world) (text : str) (pca : matrix) :
  readable w (firmware_path argv) = Some text ->
  extract_pca_matrix_text 0 N text = Ok pca ->
  pca = [] /\
  fst (main rt 0 N argv w) = Raise IndexError /\
  files (snd (main rt 0 N argv w)) = files w.
Proof.
  intros Hr Hx.
  destruct (has_shape_parts pca 0 N (extract_shape 0 N text pca Hx)) as [Hl _].
  destruct pca; [|discriminate]. split; [reflexivity|].
  rewrite main_before_extract, Hr, Hx. split; reflexivity.
Qed.

Lemma shaped_cells_bytes (m : matrix) (rows cols : nat) (bs : list (list byte)) :
  has_shape m rows cols = true ->
  mapM (pack_cell m) (cells rows cols) = Ok bs ->
  concat bs = matrix_bytes m.
Proof.
  intros Hs H. pose proof (shaped_cells_packable m rows cols bs Hs H) as Hp.
  pose proof (write_matrix_ok m rows cols [] Hs Hp) as H1.
  rewrite write_matrix_cells, (write_cells_ok _ _ bs [] H) in H1.
  injection H1 as H1. exact H1.
Qed.

(** X17. A run that ends normally read a source from which the matrix was
    extracted, with at least one row and a basis size of at least 2; both
    files hold the bytes of their matrices, [R * N * 4] and [N * N * 4]
    bytes, the second being the matrix of the formulas; the last line
    printed is [Done!]. *)
Theorem successful_run_postcondition (rt : runtime) (R N : nat) (argv : list str) (w : world) :
  fst (main rt R N argv w) = Ok tt ->
  exists text pca,
    readable w (firmware_path argv) = Some text /\
    extract_pca_matrix_text R N text = Ok pca /\
    fst (generate_idct_matrix rt N w) = Ok (spec_G_matrix rt N) /\
    1 <= R /\ 2 <= N /\
    lookup_file (files (snd (main rt R N argv w))) ipca_path = Some (matrix_bytes pca) /\
    lookup_file (files (snd (main rt R N argv w))) idct_path
    = Some (matrix_bytes (spec_G_matrix rt N)) /\
    length (matrix_bytes pca) = R * N * 4 /\
    length (matrix_bytes (spec_G_matrix rt N)) = N * N * 4 /\
    exists out, stdout (snd (main rt R N argv w)) = stdout w ++ out ++ [OutText "Done!"].
Proof.
  destruct (main rt R N argv w) as [r final] eqn:Hm. cbn [fst snd]. intros ->.
  rewrite main_before_extract in Hm.
  destruct (readable w (firmware_path argv)) as [text|] eqn:Hr; [|discriminate].
  destruct (extract_pca_matrix_text R N text) as [pca|e] eqn:Hx; [|discriminate].
  pose proof (extract_shape R N text pca Hx) as Hs.
  destruct (getitem pca 0) as [row0|e] eqn:H0; [|discriminate].
  assert (HR : 1 <= R).
  { destruct (has_shape_parts pca R N Hs) as [Hl _]. destruct pca; [discriminate|].
    simpl in Hl. lia. }
  destruct (generate_cases rt N) as [[e He]|(HN & _ & HG)].
  2:set (G := spec_G_matrix rt N) in *.
  2:pose proof (spec_G_matrix_shape rt N) as HGs; fold G in HGs.
  { rewrite He in Hm. discriminate. }
  rewrite HG in Hm. destruct (square_first_row G N HN HGs) as (HG0 & HGl & HGr).
  rewrite HG0, HGl, HGr, !add_output_app in Hm.
  unfold save_both in Hm. unfold bindS at 1 in Hm.
  destruct (save_matrix_binary pca ipca_path R N _) as [[[]|e] w1] eqn:S1; [|discriminate].
  apply save_inv in S1 as (W1 & bs1 & B1 & ->).
  unfold bindS at 1 in Hm.
  destruct (save_matrix_binary G idct_path N N _) as [[[]|e] w2] eqn:S2; [|discriminate].
  apply save_inv in S2 as (W2 & bs2 & B2 & ->).
  rewrite print_add_output in Hm. injection Hm as <-.
  rewrite (shaped_cells_bytes pca R N bs1 Hs B1), (shaped_cells_bytes G N N bs2 HGs B2).
  exists text, pca. rewrite HG. fold G.
  cbn [fst files stdout add_output lookup_file]. rewrite !str_eqb_refl.
  replace (str_eqb idct_path ipca_path) with false by (vm_compute; reflexivity).
  split; [reflexivity|]. split; [exact Hx|]. split; [reflexivity|].
  split; [exact HR|]. split; [exact HN|]. split; [reflexivity|]. split; [reflexivity|].
  split; [apply matrix_bytes_length; exact Hs|].
  split; [apply matrix_bytes_length; exact HGs|].
  match goal with
  | |- exists out, ((stdout w ++ ?X) ++ ?Y) ++ ?Z ++ _ = _ => exists (X ++ Y ++ Z)
  | |- exists out, (((stdout w ++ ?X) ++ ?Y) ++ ?Z) ++ _ = _ => exists (X ++ Y ++ Z)
  end.
  rewrite <- !app_assoc. reflexivity.
Qed.

(** X18. The two files are written one after the other, with no cleanup:
    when the first destination cannot be opened the run ends with the error
    of [open] and no file; when only the second cannot be opened the run
    ends with that error and the first file stays, complete. *)
Theorem destination_unwritable (rt : runtime) (R N : nat) (argv : list str)
    (w : world) (text : str) (pca idct : matrix) :
  readable w (firmware_path argv) = Some text ->
  extract_pca_matrix_text R N text = Ok pca -> 1 <= R ->
  fst (generate_idct_matrix rt N w) = Ok idct ->
  (writable w ipca_path = false ->
   fst (main rt R N argv w) = Raise (OSError ipca_path) /\
   files (snd (main rt R N argv w)) = files w) /\
  (writable w ipca_path = true -> writable w idct_path = false ->
   forallb (forallb packable) pca = true ->
   fst (main rt R N argv w) = Raise (OSError idct_path) /\
   files (snd (main rt R N argv w)) = (ipca_path, matrix_bytes pca) :: files w).
Proof.
  intros Hr Hx HR Hg.
  destruct (generate_cases rt N) as [[e He]|(HN & _ & HG)].
  2:set (G := spec_G_matrix rt N) in *.
  2:pose proof (spec_G_matrix_shape rt N) as HGs; fold G in HGs.
  { rewrite He in Hg. discriminate. }
  destruct (square_first_row G N HN HGs) as (HG0 & HGl & HGr).
  assert (Hm : exists out, main rt R N argv w = save_both R N pca G (add_output w out)).
  { eexists. rewrite main_before_extract, Hr, Hx, (extract_first_row R N text pca Hx HR).
    rewrite HG, HG0, !add_output_app. reflexivity. }
  destruct Hm as [out ->]. split.
  - intros Hw.
    assert (E : save_both R N pca G (add_output w out)
                = (Raise (OSError ipca_path), add_output w out)).
    { unfold save_both, bindS at 1. unfold save_matrix_binary at 1.
      cbn [writable add_output]. rewrite Hw. reflexivity. }
    rewrite E. split; reflexivity.
  - intros Hw1 Hw2 Hp.
    assert (E : save_both R N pca G (add_output w out)
                = (Raise (OSError idct_path),
                   {| readable := readable w; writable := writable w;
                      files := (ipca_path, matrix_bytes pca) :: files w;
                      stdout := (stdout w ++ out) ++ [OutSaved R N ipca_path (R * N * 4)] |})).
    { unfold save_both, bindS at 1.
      rewrite save_matrix_binary_ok by (try assumption; apply (extract_shape R N text pca Hx)).
      unfold bindS at 1. unfold save_matrix_binary at 1.
      cbn [readable writable files stdout add_output]. rewrite Hw2. reflexivity. }
    rewrite E. split; reflexivity.
Qed.

Lemma generator_failure_aborts_run_witness :
  fst (main sample_runtime 2 1 [] (world_with literal_2x1 (fun _ => true)))
  = Raise ZeroDivisionError /\
  files (snd (main sample_runtime 2 1 [] (world_with literal_2x1 (fun _ => true)))) = [] /\
  stdout (snd (main sample_runtime 2 1 [] (world_with literal_2x1 (fun _ => true))))
  = [] ++ extraction_output [[f1_0]; [f3_0]].
Proof.
  assert (Hx : extract_pca_matrix_text 2 1 literal_2x1 = Ok [[f1_0]; [f3_0]])
    by (vm_compute; reflexivity).
  exact (generator_failure_aborts_run sample_runtime 2 1 [] (world_with literal_2x1 (fun _ => true))
           literal_2x1 [[f1_0]; [f3_0]] ZeroDivisionError eq_refl Hx (le_S 1 1 (le_n 1)) eq_refl).
Defined.

Lemma empty_matrix_aborts_run_witness :
  fst (main sample_runtime 0 2 [] (world_with literal_no_rows (fun _ => true))) = Raise IndexError /\
  files (snd (main sample_runtime 0 2 [] (world_with literal_no_rows (fun _ => true)))) = [].
Proof.
  assert (Hx : extract_pca_matrix_text 0 2 literal_no_rows = Ok []) by (vm_compute; reflexivity).
  exact (proj2 (empty_matrix_aborts_run sample_runtime 2 [] (world_with literal_no_rows (fun _ => true))
                  literal_no_rows [] eq_refl Hx)).
Defined.

Lemma successful_run_postcondition_witness :
  exists text pca,
    readable sample_world (firmware_path sample_argv) = Some text /\
    extract_pca_matrix_text 2 2 text = Ok pca /\
    lookup_file (files (snd (main sample_runtime 2 2 sample_argv sample_world))) ipca_path
    = Some (matrix_bytes pca) /\
    length (matrix_bytes pca) = 2 * 2 * 4.
Proof.
  assert (H : fst (main sample_runtime 2 2 sample_argv sample_world) = Ok tt)
    by (vm_compute; reflexivity).
  destruct (successful_run_postcondition sample_runtime 2 2 sample_argv sample_world H)
    as (text & pca & H1 & H2 & _ & _ & _ & H6 & _ & H8 & _).
  exists text, pca. split; [exact H1|]. split; [exact H2|]. split; [exact H6|exact H8].
Defined.

Lemma destination_unwritable_witness :
  fst (main sample_runtime 2 2 [] (world_with literal_2x2 (fun p => str_eqb p ipca_path)))
  = Raise (OSError idct_path) /\
  files (snd (main sample_runtime 2 2 [] (world_with literal_2x2 (fun p => str_eqb p ipca_path))))
  = [(ipca_path, matrix_bytes [[f1_0; f2_0]; [f3_0; f4_0]])].
Proof.
  assert (Hx : extract_pca_matrix_text 2 2 literal_2x2 = Ok [[f1_0; f2_0]; [f3_0; f4_0]])
    by (vm_compute; reflexivity).
  assert (Hg : fst (generate_idct_matrix sample_runtime 2
                      (world_with literal_2x2 (fun p => str_eqb p ipca_path)))
               = Ok (spec_G_matrix sample_runtime 2)) by (vm_compute; reflexivity).
  assert (Hw1 : str_eqb ipca_path ipca_path = true) by (vm_compute; reflexivity).
  assert (Hw2 : str_eqb idct_path ipca_path = false) by (vm_compute; reflexivity).
  exact (proj2 (destination_unwritable sample_runtime 2 2 []
                  (world_with literal_2x2 (fun p => str_eqb p ipca_path))
                  literal_2x2 [[f1_0; f2_0]; [f3_0; f4_0]] (spec_G_matrix sample_runtime 2)
                  eq_refl Hx (le_S 1 1 (le_n 1)) Hg) Hw1 Hw2 eq_refl).
Defined.




(* ================================================================== *)
(** ** Tokens that are no finite number *)

Lemma str_eqb_eq (a b : str) : str_eqb a b = true -> a = b.
Proof.
  revert b. induction a as [|x a IH]; intros [|y b] H; try discriminate H; [reflexivity|].
  cbn [str_eqb] in H. apply andb_true_iff in H as [Hx Ha].
  apply Ascii.eqb_eq in Hx as ->. rewrite (IH b Ha). reflexivity.
Qed.

Lemma lower_plain (c : ascii) :
  plain (lower c) = true ->
  plain c = true /\
  (lower c = "i"%char \/ lower c = "n"%char ->
   Ascii.eqb c "-" = false /\ Ascii.eqb c "+" = false).
Proof.
  destruct c as [[] [] [] [] [] [] [] []]; vm_compute; intros H; try discriminate H;
    (split; [reflexivity|]); intros [E|E]; try discriminate E; split; reflexivity.
Qed.

Lemma word_plain (target : string) (word : str) :
  forallb plain (s_ target) = true -> is_word target word = true ->
  forallb plain word = true.
Proof.
  unfold is_word. intros Ht H. apply str_eqb_eq in H. rewrite <- H in Ht. clear H.
  induction word as [|c word IH]; [reflexivity|].
  cbn [map forallb] in *. apply andb_true_iff in Ht as [Hc Hw].
  rewrite (proj1 (lower_plain c Hc)), (IH Hw). reflexivity.
Qed.

Lemma py_float_plain (s : str) :
  forallb plain s = true ->
  strip s = s /\
  py_float s = match parse_float s with
               | Some x => Ok x
               | None => Raise (MalformedNumericLiteral s)
               end.
Proof.
  intros Hp. split.
  - unfold strip. apply strip_with_id. revert Hp. apply forallb_weaken. intros c Hc.
    unfold plain in Hc. apply andb_true_iff in Hc as [Hc _].
    apply andb_true_iff in Hc as [Hc _]. exact Hc.
  - unfold py_float, to_ascii_spaces.
    replace (forallb is_ascii s) with true.
    2:{ symmetry. revert Hp. apply forallb_weaken. intros c Hc.
        unfold plain in Hc. apply andb_true_iff in Hc as [_ Hc]. exact Hc. }
    rewrite (strip_with_id is_c_space s); [reflexivity|].
    revert Hp. apply forallb_weaken. intros c Hc.
    unfold plain in Hc. apply andb_true_iff in Hc as [Hc _].
    apply andb_true_iff in Hc as [_ Hc]. exact Hc.
Qed.

Lemma signed_word (sg : option bool) (target : string) (word : str) (c0 : ascii) (t : string) :
  target = String c0 t -> c0 = "i"%char \/ c0 = "n"%char ->
  forallb plain (s_ target) = true -> is_word target word = true ->
  forallb plain (render_sign sg ++ word) = true /\
  parse_sign (render_sign sg ++ word) = (is_minus sg, word).
Proof.
  intros Ht Hc0 Hp Hw. pose proof (word_plain target word Hp Hw) as Hpw. split.
  - rewrite forallb_app, Hpw. destruct sg as [[]|]; reflexivity.
  - apply parse_sign_render. destruct word as [|c word].
    + exact I.
    + unfold is_word in Hw. apply str_eqb_eq in Hw. subst target. cbn in Hw.
      injection Hw as Hc _.
      assert (Hpc : plain (lower c) = true).
      { rewrite Hc. cbn in Hp. apply andb_true_iff in Hp as [Hp _]. exact Hp. }
      apply (proj2 (lower_plain c Hpc)). rewrite Hc. exact Hc0.
Qed.

(** X20. [float] takes the words [inf], [infinity] and [nan], in any letter
    case and with a sign, for numbers, and [struct.pack] packs them: such a
    token is no error for the extraction nor for the writer. *)
Theorem non_finite_tokens_are_accepted (sg : option bool) (word : str) :
  (is_word "inf" word || is_word "infinity" word = true ->
   py_float (strip (render_sign sg ++ word)) = Ok (S754_infinity (is_minus sg)) /\
   struct_pack_f (S754_infinity (is_minus sg))
   = Ok (le32 (sign_bit (is_minus sg) + 255 * 2 ^ 23)%Z)) /\
  (is_word "nan" word = true ->
   py_float (strip (render_sign sg ++ word)) = Ok S754_nan /\
   struct_pack_f S754_nan = Ok (le32 (255 * 2 ^ 23 + 2 ^ 22)%Z)).
Proof.
  split.
  - intros H.
    assert (Hs : forallb plain (render_sign sg ++ word) = true /\
                 parse_sign (render_sign sg ++ word) = (is_minus sg, word)).
    { apply orb_true_iff in H as [H|H].
      - apply (signed_word sg "inf" word "i" "nf" eq_refl (or_introl eq_refl) eq_refl H).
      - apply (signed_word sg "infinity" word "i" "nfinity" eq_refl (or_introl eq_refl) eq_refl H). }
    destruct Hs as [Hp Hsign]. destruct (py_float_plain _ Hp) as [-> ->].
    unfold parse_float. rewrite Hsign. unfold is_word in H. rewrite H.
    split; reflexivity.
  - intros H.
    destruct (signed_word sg "nan" word "n" "an" eq_refl (or_intror eq_refl) eq_refl H)
      as [Hp Hsign].
    destruct (py_float_plain _ Hp) as [-> ->].
    unfold parse_float. rewrite Hsign. unfold is_word in H.
    pose proof (str_eqb_eq _ _ H) as E. rewrite E. split; reflexivity.
Qed.

Lemma non_finite_tokens_are_accepted_witness :
  py_float (strip (s_ "-Infinity")) = Ok (S754_infinity true) /\
  struct_pack_f (S754_infinity true) = Ok (le32 (sign_bit true + 255 * 2 ^ 23)%Z).
Proof.
  exact (proj1 (non_finite_tokens_are_accepted (Some true) (s_ "Infinity")) eq_refl).
Defined.
